(** * helix-cli: the packaging pipeline and the request context

  A shallow embedding of [PackageCommand] (package.cmd.js) and of
  [RequestContext] (RequestContext.js), with the properties of the
  packaging pipeline stated over it.

  JavaScript strings are modelled as [string]; indices are [Z], so that
  the [-1] of [lastIndexOf] is the value the code compares against. *)

From Stdlib Require Import ZArith NArith Ascii String DecimalString List Bool Lia Sorted.
From stdpp Require Import base list strings.

Open Scope string_scope.

(** ** JavaScript string primitives used by the sources *)

Module JsString.

Open Scope Z_scope.

(** [lastIndexOfFrom c s i acc]: scan [s], whose first character has
    index [i], remembering in [acc] the last index at which [c] was seen. *)
Fixpoint lastIndexOfFrom (c : ascii) (s : string) (i acc : Z) : Z :=
  match s with
  | EmptyString => acc
  | String a s' => lastIndexOfFrom c s' (i + 1) (if Ascii.eqb a c then i else acc)
  end.

(** [String.prototype.lastIndexOf] for a one-character needle: the
    greatest index holding [c], or [-1]. *)
Definition lastIndexOf (c : ascii) (s : string) : Z :=
  lastIndexOfFrom c s 0 (-1).

Definition len (s : string) : Z := Z.of_nat (String.length s).

Definition clamp (s : string) (i : Z) : Z := Z.max 0 (Z.min i (len s)).

(** [String.prototype.substring(a, b)]: both ends are clamped to
    [0 .. length], and swapped when [a > b]. *)
Definition substring (s : string) (a b : Z) : string :=
  let a' := clamp s a in
  let b' := clamp s b in
  let lo := Z.min a' b' in
  let hi := Z.max a' b' in
  String.substring (Z.to_nat lo) (Z.to_nat (hi - lo)) s.

(** [substring(a)] with the end left out. *)
Definition substringFrom (s : string) (a : Z) : string :=
  substring s a (len s).

End JsString.

(** ** RequestContext.js *)

Module RequestContext.

Import JsString.
Open Scope Z_scope.

(** The part of the request the constructor reads: [req.url], absent
    ([undefined]) or a string. *)
Record Request := { url : option string }.

Record t (Cfg : Type) := mk {
  _cfg : Cfg;
  _url : option string;
  _path : string;
  _selector : string;
  _extension : string;
  _resourcePath : string;
}.
Arguments mk {Cfg}.
Arguments _cfg {Cfg}.
Arguments _url {Cfg}.
Arguments _path {Cfg}.
Arguments _selector {Cfg}.
Arguments _extension {Cfg}.
Arguments _resourcePath {Cfg}.

(** [url || '/']: [undefined] and the empty string are falsy. *)
Definition pathOf (u : option string) : string :=
  match u with
  | None => "/"
  | Some "" => "/"
  | Some s => s
  end.

Definition dot : ascii := ".".
Definition slash : ascii := "/".
Definition qmark : ascii := "?".

Definition constructor {Cfg} (req : Request) (cfg : Cfg) : t Cfg :=
  let path := pathOf (url req) in
  let relPath := path in
  let lastSlash := lastIndexOf slash relPath in
  let lastDot := lastIndexOf dot relPath in
  if lastSlash <? lastDot then
    let relPath := substring relPath 0 lastDot in
    let queryParamIndex := lastIndexOf qmark path in
    let extension :=
      substring path (lastDot + 1)
        (if queryParamIndex =? -1 then len path else queryParamIndex) in
    let selDot := lastIndexOf dot relPath in
    if lastSlash <? selDot then
      mk cfg (url req) path (substringFrom relPath (selDot + 1)) extension
         (substring relPath 0 selDot)
    else
      mk cfg (url req) path "" extension relPath
  else if lastSlash =? len relPath - 1 then
    mk cfg (url req) path "" "" (relPath ++ "index")
  else
    mk cfg (url req) path "" "" relPath.

(** The getters. *)
Definition path {Cfg} (c : t Cfg) : string := _path c.
Definition config {Cfg} (c : t Cfg) : Cfg := _cfg c.
Definition resourcePath {Cfg} (c : t Cfg) : string := _resourcePath c.
Definition extension {Cfg} (c : t Cfg) : string := _extension c.
Definition selector {Cfg} (c : t Cfg) : string := _selector c.
Definition valid {Cfg} (c : t Cfg) : bool := true.

End RequestContext.

(** ** Script descriptors (the [ActionInfo] objects of package.cmd.js) *)

Module Descriptor.

(** An [ActionInfo] object. [main], [isStatic] and [requires] come from
    the build step; the other properties are absent ([None]) until
    [run] derives them, or present when the descriptor file was written
    by an earlier run. *)
Record ActionInfo := {
  name : option string;
  main : string;
  isStatic : bool;
  requires : list string;
  dirname : option string;
  bundleName : option string;
  bundlePath : option string;
  zipFile : option string;
  archiveName : option string;
  archiveSize : option N;
  infoFile : option string;
}.

#[export] Instance ActionInfo_eq_dec : EqDecision ActionInfo.
Proof. solve_decision. Defined.

(** Assignment to one property of the object. *)
Definition set_requires (v : list string) (i : ActionInfo) : ActionInfo :=
  {| name := name i; main := main i; isStatic := isStatic i; requires := v;
     dirname := dirname i; bundleName := bundleName i;
     bundlePath := bundlePath i; zipFile := zipFile i;
     archiveName := archiveName i; archiveSize := archiveSize i;
     infoFile := infoFile i |}.

Definition set_zipFile (v : option string) (i : ActionInfo) : ActionInfo :=
  {| name := name i; main := main i; isStatic := isStatic i;
     requires := requires i; dirname := dirname i;
     bundleName := bundleName i; bundlePath := bundlePath i; zipFile := v;
     archiveName := archiveName i; archiveSize := archiveSize i;
     infoFile := infoFile i |}.

Definition set_archiveSize (v : N) (i : ActionInfo) : ActionInfo :=
  {| name := name i; main := main i; isStatic := isStatic i;
     requires := requires i; dirname := dirname i;
     bundleName := bundleName i; bundlePath := bundlePath i;
     zipFile := zipFile i; archiveName := archiveName i;
     archiveSize := Some v; infoFile := infoFile i |}.

(** [delete script.zipFile]. *)
Definition delete_zipFile (i : ActionInfo) : ActionInfo := set_zipFile None i.

(** Truthiness of a string property: absent and empty are falsy. *)
Definition truthy (o : option string) : bool :=
  match o with
  | None => false
  | Some s => negb (String.eqb s "")
  end.

(** A string property inside a template literal or as an object key. *)
Definition str (o : option string) : string := default "undefined" o.

(** A descriptor as the build step writes it. *)
Definition built (main_ : string) (static : bool) (reqs : list string) : ActionInfo :=
  {| name := None; main := main_; isStatic := static; requires := reqs;
     dirname := None; bundleName := None; bundlePath := None; zipFile := None;
     archiveName := None; archiveSize := None; infoFile := None |}.

End Descriptor.

(** ** The dependency flattener *)

Module PackagerUtils.

Import Descriptor.

(** Modelled from the spec: a step of the dependency graph of the
    flattener (packager-utils.js is missing): the paths required by the
    descriptors whose entry script is [p]. *)
Definition requiredBy (scripts : list ActionInfo) (p : string) : list string :=
  filter (fun s => main s = p) scripts ≫= requires.

(** Modelled from the spec: one round of the closure of the flattener,
    adding what the paths found so far require, without duplicates. *)
Definition expand (scripts : list ActionInfo) (acc : list string) : list string :=
  remove_dups (acc ++ (acc ≫= requiredBy scripts)).

(** Modelled from the spec: the rounds of the closure of the flattener,
    until nothing is added; [fuel] bounds the number of rounds. *)
Fixpoint saturate (fuel : nat) (scripts : list ActionInfo) (acc : list string) : list string :=
  match fuel with
  | O => acc
  | S fuel' =>
      let acc' := expand scripts acc in
      if Nat.eqb (length acc') (length acc) then acc
      else saturate fuel' scripts acc'
  end.

(** Modelled from the spec: every path some descriptor requires, the
    paths the closure of the flattener can hold. *)
Definition required (scripts : list ActionInfo) : list string :=
  remove_dups (scripts ≫= requires).

(** Modelled from the spec: the transitive closure of the [requires] of
    [s], which the missing flattener computes. Each round that does not
    stop adds a path of [required scripts], so its length is fuel enough. *)
Definition closure (scripts : list ActionInfo) (s : ActionInfo) : list string :=
  saturate (length (required scripts)) scripts (remove_dups (requires s)).

(** Modelled from the spec: the flattened descriptor of the missing
    flattener, its [requires] the closure without the script itself. *)
Definition flattenOne (scripts : list ActionInfo) (s : ActionInfo) : ActionInfo :=
  set_requires (filter (fun p => p ≠ main s) (closure scripts s)) s.

(** Modelled from the spec: [flattenDependencies] is defined in
    packager-utils.js, which is not among the sources; package.cmd.js only
    calls it. Following the description of the Dependency Flattener, the
    output is the sequence of the same descriptors, each with [requires]
    replaced by its deduplicated transitive closure, the script itself
    left out (a script that reaches itself is no error). A required path
    is followed through every descriptor that has it as [main]. *)
Definition flattenDependencies (scripts : list ActionInfo) : list ActionInfo :=
  flattenOne scripts <$> scripts.

(** [reaches scripts from p]: [p] is in [from], or is required by a
    descriptor whose entry script is reached. *)
Inductive reaches (scripts : list ActionInfo) (from : list string) : string -> Prop :=
| reaches_base p : p ∈ from -> reaches scripts from p
| reaches_step p q :
    reaches scripts from p -> q ∈ requiredBy scripts p -> reaches scripts from q.

End PackagerUtils.

(** ** Effects of the packaging command

    The command talks to the file system, the bundler, the archiver, its
    logger, its progress bar and its listeners. A run is modelled by the
    calls it makes, in order, and by how its promise settles. *)

Module Effects.

Import Descriptor.
Local Open Scope list_scope.

Inductive level := Debug | Info | Warn | Error.

(** What the [ActionBundler] is configured with and run on. The progress
    handler it is given only redraws the progress bar and is left out. *)
Record BundlerInput := {
  b_directory : string;
  b_modulePaths : list string;
  b_minify : bool;
  b_files : list (string * string);
}.

Inductive action :=
| SuperInit
| BuildRun (files : list string) (targetDir : string)
| GlobSync (pattern : string)
| ReadJSON (file : string)
| PathExists (file : string)
| Emit (event : string) (info : ActionInfo)
| Log (lvl : level) (message : string)
| LogEach (lvl : level) (item : string) (index : nat) (items : list string)
| LogMaybe (message : string)
| NewProgressBar (total : nat)
| BarTick (label : string)
| BundlerRun (input : BundlerInput)
| CreateWriteStream (file : string)
| ArchiveAppend (content : string) (entry : string)
| ArchiveFile (file : option string) (entry : string)
| ArchiveFinalize
| WriteJson (file : option string) (info : ActionInfo).

(** One step of a run: a call, or a group of operations issued together
    and awaited with [Promise.all], whose calls may interleave. *)
Inductive step :=
| Do (a : action)
| All (threads : list (list action)).

Definition trace := list step.

(** How a promise settles, if it ever does. *)
Inductive outcome (A : Type) :=
| Done (a : A)
| Thrown (reason : string)
| Pending.
Arguments Done {A}.
Arguments Thrown {A}.
Arguments Pending {A}.

(** An asynchronous computation: the steps it takes and its result. A
    rejected or pending [await] ends the steps of the function. *)
Definition M (A : Type) : Type := trace * outcome A.

Definition ret {A} (a : A) : M A := ([], Done a).

Definition bind {A B} (m : M A) (k : A -> M B) : M B :=
  match m with
  | (t, Done a) => let '(t', o) := k a in (t ++ t', o)
  | (t, Thrown e) => (t, Thrown e)
  | (t, Pending) => (t, Pending)
  end.

Definition perform (a : action) : M unit := ([Do a], Done tt).

Definition call {A} (a : action) (result : outcome A) : M A := ([Do a], result).

(** [Promise.all]: rejected as soon as one promise is rejected, fulfilled
    when all are, pending otherwise. Of several rejections the earliest in
    time wins; the list order stands in for it. *)
Fixpoint settle_all {A} (os : list (outcome A)) : outcome (list A) :=
  match os with
  | [] => Done []
  | o :: os' =>
      match o, settle_all os' with
      | Thrown e, _ => Thrown e
      | _, Thrown e => Thrown e
      | Pending, _ => Pending
      | Done _, Pending => Pending
      | Done a, Done l => Done (a :: l)
      end
  end.

Definition promise_all {A} (ops : list (list action * outcome A)) : M (list A) :=
  ([All (fst <$> ops)], settle_all (snd <$> ops)).

(** The orders in which the calls of concurrent operations can happen. *)
Inductive interleaving : list (list action) -> list action -> Prop :=
| interleaving_done ts :
    Forall (fun t => t = []) ts -> interleaving ts []
| interleaving_next ts i a t l :
    ts !! i = Some (a :: t) ->
    interleaving (<[i := t]> ts) l ->
    interleaving ts (a :: l).

(** The sequences of calls a trace stands for. *)
Inductive linearization : trace -> list action -> Prop :=
| linearization_nil : linearization [] []
| linearization_do a t l :
    linearization t l -> linearization (Do a :: t) (a :: l)
| linearization_all ts t l1 l2 :
    interleaving ts l1 -> linearization t l2 ->
    linearization (All ts :: t) (l1 ++ l2).

(** All the calls of a trace, operation after operation. *)
Definition calls (t : trace) : list action :=
  t ≫= (fun s => match s with Do a => [a] | All ts => mjoin ts end).

(** The descriptors the listeners of [event] were given, in order. *)
Definition emitted (event : string) (acts : list action) : list ActionInfo :=
  omap (fun a =>
          match a with
          | Emit e d => if String.eqb e event then Some d else None
          | _ => None
          end) acts.

(** The descriptor files written, as (path, content). *)
Definition written (acts : list action) : list (option string * ActionInfo) :=
  omap (fun a => match a with WriteJson f d => Some (f, d) | _ => None end) acts.

(** The calls of the bundling phase: the bundler and the report of its
    diagnostics. *)
Definition bundling (a : action) : bool :=
  match a with
  | BundlerRun _ | LogEach _ _ _ _ => true
  | _ => false
  end.

(** The calls that write an archive. *)
Definition archiving (a : action) : bool :=
  match a with
  | CreateWriteStream _ | ArchiveAppend _ _ | ArchiveFile _ _ | ArchiveFinalize => true
  | _ => false
  end.

(** The calls of a run that write an archive, in order. *)
Definition archiveCalls (acts : list action) : list action :=
  filter (fun a => archiving a = true) acts.

(** A warning or an error on the log. *)
Definition alarming (a : action) : bool :=
  match a with
  | Log Warn _ | Log Error _ | LogEach _ _ _ _ => true
  | _ => false
  end.

(** The diagnostics handed to the logger one by one, with their level. *)
Definition diagnostics (acts : list action) : list (level * string) :=
  omap (fun a => match a with LogEach lvl item _ _ => Some (lvl, item) | _ => None end) acts.

(** The calls that build the scripts and read their descriptors. *)
Definition loading (a : action) : bool :=
  match a with
  | SuperInit | BuildRun _ _ | GlobSync _ | ReadJSON _ => true
  | _ => false
  end.

(** The calls made before anything is packaged. *)
Definition preparing (a : action) : bool :=
  match a with
  | PathExists _ => true
  | Emit e _ => String.eqb e "ignore-package"
  | _ => loading a
  end.

(** The calls made once the bundles are there: the archives, their
    progress and notifications, the descriptors written back. *)
Definition afterBundling (a : action) : bool :=
  match a with
  | CreateWriteStream _ | ArchiveAppend _ _ | ArchiveFile _ _ | ArchiveFinalize => true
  | Log Debug _ | Log Error _ | BarTick _ | LogMaybe _ | WriteJson _ _ => true
  | Emit e _ => String.eqb e "create-package"
  | _ => false
  end.

(** The calls made for the scripts that are packaged. *)
Definition packagingCall (a : action) : bool :=
  match a with
  | NewProgressBar _ => true
  | _ => bundling a || afterBundling a
  end.

(** A list of calls none of which satisfies [P]. *)
Definition without (P : action -> bool) (acts : list action) : Prop :=
  Forall (fun a => P a = false) acts.

End Effects.

Module EffectNotations.
Notation "'let*' x ':=' m 'in' k" := (Effects.bind m (fun x => k))
  (at level 10, x binder, m at level 100, k at level 200).
End EffectNotations.

(** ** What the platform provides *)

(** Node's [path] module, the directory of the command's own module and
    [chalk]. Their results depend on the operating system and on the
    terminal, so the command is stated over any of them. *)
Class Platform := {
  path_basename : string -> string;
  path_basename_ext : string -> string -> string;
  path_dirname : string -> string;
  path_resolve : list string -> string;
  module_dirname : string;
  chalk_redBright : string -> string;
}.

(** ** JSON text of an object with string members *)

Module Json.

Local Open Scope list_scope.

Definition dquote : string := String (ascii_of_N 34) "".
Definition newline : string := String (ascii_of_N 10) "".

Definition hexDigit (n : N) : string :=
  String.substring (N.to_nat n) 1 "0123456789abcdef".

(** The escape of one character inside a JSON string. *)
Definition escape (c : ascii) : string :=
  let n := N_of_ascii c in
  match n with
  | 8%N => "\b"
  | 9%N => "\t"
  | 10%N => "\n"
  | 12%N => "\f"
  | 13%N => "\r"
  | 34%N => "\" +:+ dquote
  | 92%N => "\\"
  | _ =>
      if (n <? 32)%N
      then "\u00" +:+ hexDigit (n / 16) +:+ hexDigit (n mod 16)
      else String c ""
  end.

Fixpoint escapeAll (s : string) : string :=
  match s with
  | EmptyString => ""
  | String c s' => escape c +:+ escapeAll s'
  end.

Definition quote (s : string) : string := dquote +:+ escapeAll s +:+ dquote.

Fixpoint join (sep : string) (parts : list string) : string :=
  match parts with
  | [] => ""
  | [p] => p
  | p :: rest => p +:+ sep +:+ join sep rest
  end.

(** An object literal whose members are strings or [undefined]. *)
Definition object := list (string * option string).

(** [JSON.stringify(obj, null, gap)]: members in insertion order, one
    per line, [undefined] members left out. *)
Definition stringify (gap : string) (obj : object) : string :=
  let members :=
    omap (fun '(k, v) => (fun s => quote k +:+ ": " +:+ quote s) <$> v) obj in
  match members with
  | [] => "{}"
  | _ =>
      "{" +:+ newline +:+ gap
      +:+ join ("," +:+ newline +:+ gap) members
      +:+ newline +:+ "}"
  end.

Definition get (key : string) (obj : object) : option string :=
  match find (fun kv => String.eqb (fst kv) key) obj with
  | Some (_, v) => v
  | None => None
  end.

End Json.

(** ** package.cmd.js *)

Module Package.

Import Descriptor Effects EffectNotations.
Local Open Scope list_scope.

Section WithPlatform.

Context `{Platform}.

(** *** The progress label of an archive entry *)

Definition lineTerminator (c : ascii) : bool :=
  (N_of_ascii c =? 10)%N || (N_of_ascii c =? 13)%N.

Definition dropChars (n : nat) (s : string) : string :=
  String.substring n (String.length s - n) s.

(** The regular expression [/\/package.json.*/] matches at the head of
    [s]: the dot before [json] stands for any character of the line. *)
Definition packageJsonAt (s : string) : bool :=
  String.prefix "/package" s
  && match String.get 8 s with
     | Some c => negb (lineTerminator c)
     | None => false
     end
  && String.prefix "json" (dropChars 9 s).

(** What is left of [s] after the rest of the line. *)
Fixpoint afterLine (s : string) : string :=
  match s with
  | EmptyString => ""
  | String c s' => if lineTerminator c then s else afterLine s'
  end.

(** [name.replace(/\/package.json.*/, '')]: the first match is cut. *)
Fixpoint cutPackageJson (s : string) : string :=
  match s with
  | EmptyString => ""
  | String c s' =>
      if packageJsonAt s then afterLine (dropChars 13 s)
      else String c (cutPackageJson s')
  end.

(** [name.replace(/node_modules\//, '')]. *)
Fixpoint cutNodeModules (s : string) : string :=
  match s with
  | EmptyString => ""
  | String c s' =>
      if String.prefix "node_modules/" s then dropChars 13 s
      else String c (cutNodeModules s')
  end.

(** The [tick] closure of [createPackage]. *)
Definition tick (message name : string) : list action :=
  let shortname := cutNodeModules (cutPackageJson name) in
  BarTick (if String.eqb name "" then "" else "packaging " +:+ shortname)
  :: (if String.eqb message "" then [] else [LogMaybe message]).

(** *** createPackage *)

(** What the archiver signals while one archive is written. *)
Inductive signal :=
| Entry (entryName : string)
| Warning (message : string)
| Failure (message : string).

(** The events of one archiving operation: the signals of the archiver
    and then, when the write stream closes, the bytes written
    ([archive.pointer()]). The close of the stream is its last event. *)
Record ArchiveRun := {
  signals : list signal;
  closed : option N;
}.

(** The variables the handlers of one [createPackage] call share. *)
Record OpState := {
  info : ActionInfo;
  hadErrors : bool;
  settled : outcome ActionInfo;
}.

(** [resolve] and [reject] settle the promise once. *)
Definition resolve (v : ActionInfo) (st : OpState) : OpState :=
  match settled st with
  | Pending => {| info := info st; hadErrors := hadErrors st; settled := Done v |}
  | _ => st
  end.

Definition reject (reason : string) (st : OpState) : OpState :=
  match settled st with
  | Pending => {| info := info st; hadErrors := hadErrors st; settled := Thrown reason |}
  | _ => st
  end.

Definition decimal (n : N) : string := NilZero.string_of_uint (N.to_uint n).

(** [output.on('close', ...)]. *)
Definition onClose (archiveName : string) (pointer : N) (st : OpState) : list action * OpState :=
  if hadErrors st then ([], st)
  else
    let info' := set_archiveSize pointer (info st) in
    ([Log Debug (archiveName +:+ ": Created package. " +:+ decimal pointer +:+ " total bytes");
      Emit "create-package" info'],
     resolve info' {| info := info'; hadErrors := hadErrors st; settled := settled st |}).

(** [archive.on('entry', ...)]. *)
Definition onEntry (archiveName : string) (entryName : string) (st : OpState) : list action * OpState :=
  (Log Debug (archiveName +:+ ": A " +:+ entryName) :: tick "" entryName, st).

(** [archive.on('warning', ...)] and [archive.on('error', ...)]: the
    same body. *)
Definition onFailure (message : string) (st : OpState) : list action * OpState :=
  ([Log Error (chalk_redBright "[error] " +:+ "Unable to create archive: " +:+ message)],
   reject message {| info := info st; hadErrors := true; settled := settled st |}).

Definition onSignal (archiveName : string) (sig : signal) (st : OpState) : list action * OpState :=
  match sig with
  | Entry n => onEntry archiveName n st
  | Warning m => onFailure m st
  | Failure m => onFailure m st
  end.

Fixpoint onSignals (archiveName : string) (sigs : list signal) (st : OpState) : list action * OpState :=
  match sigs with
  | [] => ([], st)
  | sig :: rest =>
      let '(a1, st1) := onSignal archiveName sig st in
      let '(a2, st2) := onSignals archiveName rest st1 in
      (a1 ++ a2, st2)
  end.

Definition packageJson (i : ActionInfo) : Json.object :=
  [("name", name i);
   ("version", Some "1.0");
   ("description", Some ("Lambda function of " +:+ str (name i)));
   ("main", Some (path_basename (main i)));
   ("license", Some "Apache-2.0")].

(** One call of [createPackage]: what the promise executor does at once,
    what the handlers do later, how the promise settles and what has
    become of the descriptor. *)
Record PackageOp := {
  started : list action;
  handled : list action;
  promise : outcome ActionInfo;
  descriptor : ActionInfo;
}.

Definition createPackage (i : ActionInfo) (run : ArchiveRun) : PackageOp :=
  match zipFile i with
  | None =>
      (* path.basename(undefined) throws inside the executor *)
      {| started := []; handled := [];
         promise := Thrown "TypeError: the path argument must be of type string, received undefined";
         descriptor := i |}
  | Some zf =>
      let archiveName := path_basename zf in
      let st0 := {| info := i; hadErrors := false; settled := Pending |} in
      let '(a1, st1) := onSignals archiveName (signals run) st0 in
      let '(a2, st2) :=
        match closed run with
        | Some pointer => onClose archiveName pointer st1
        | None => ([], st1)
        end in
      {| started :=
           [CreateWriteStream zf;
            Log Debug ("preparing package " +:+ archiveName);
            ArchiveAppend (Json.stringify "  " (packageJson i)) "package.json";
            ArchiveFile (bundlePath i) (path_basename (main i));
            ArchiveFinalize];
         handled := a1 ++ a2;
         promise := settled st2;
         descriptor := info st2 |}
  end.

(** Where the content of an archive entry comes from. *)
Inductive source :=
| Inline (content : string)
| FromFile (file : option string).

(** The entries the archiver was asked to store, as (name, source). *)
Definition entries (acts : list action) : list (string * source) :=
  omap (fun a =>
          match a with
          | ArchiveAppend content n => Some (n, Inline content)
          | ArchiveFile file n => Some (n, FromFile file)
          | _ => None
          end) acts.

(** *** The command and the world it runs in *)

(** The fields of a [PackageCommand] once the command line has set them
    with [withTarget], [withFiles], [withOnlyModified] and [withMinify];
    [directory] is inherited from [AbstractCommand]. *)
Record PackageCommand := {
  directory : string;
  _target : string;
  _files : list string;
  _onlyModified : bool;
  _enableMinify : bool;
}.

Definition withTarget (value : string) (cmd : PackageCommand) : PackageCommand :=
  {| directory := directory cmd; _target := value; _files := _files cmd;
     _onlyModified := _onlyModified cmd; _enableMinify := _enableMinify cmd |}.

Definition withFiles (value : list string) (cmd : PackageCommand) : PackageCommand :=
  {| directory := directory cmd; _target := _target cmd; _files := value;
     _onlyModified := _onlyModified cmd; _enableMinify := _enableMinify cmd |}.

Definition withOnlyModified (value : bool) (cmd : PackageCommand) : PackageCommand :=
  {| directory := directory cmd; _target := _target cmd; _files := _files cmd;
     _onlyModified := value; _enableMinify := _enableMinify cmd |}.

Definition withMinify (value : bool) (cmd : PackageCommand) : PackageCommand :=
  {| directory := directory cmd; _target := _target cmd; _files := _files cmd;
     _onlyModified := _onlyModified cmd; _enableMinify := value |}.

Definition requireConfigFile (cmd : PackageCommand) : bool := false.

(** What [bundler.run] returns: optional lists of diagnostics. *)
Record Stats := {
  errors : option (list string);
  warnings : option (list string);
}.

(** The collaborators of the command: how each of their calls answers. *)
Record World := {
  super_init : outcome unit;
  build_run : list string -> string -> outcome unit;
  glob_sync : string -> list string;
  read_json : string -> outcome ActionInfo;
  disk : list string;
  bundler_run : BundlerInput -> outcome Stats;
  archive_run : ActionInfo -> ArchiveRun;
  write_json : option string -> ActionInfo -> outcome unit;
}.

(** [fs.pathExists]: whether [fs.access] succeeds. [disk] lists the paths
    that exist once the build is done; the empty string names no file. *)
Definition pathExists (w : World) (p : string) : bool :=
  negb (String.eqb p "") && bool_decide (p ∈ disk w).

Definition performAll (acts : list action) : M unit := (Do <$> acts, Done tt).

Definition init (w : World) (cmd : PackageCommand) : M PackageCommand :=
  let* _ := call SuperInit (super_init w) in
  ret (withTarget (path_resolve [directory cmd; _target cmd]) cmd).

(** Whether [key] is an array index, that is the canonical decimal
    numeral of an integer below 2^32 - 1, and which one. *)
Definition arrayIndex (key : string) : option N :=
  match NilZero.uint_of_string key with
  | Some u =>
      let n := N.of_uint u in
      if String.eqb (decimal n) key && (n <? 4294967295)%N then Some n else None
  | None => None
  end.

(** A new property whose key is the array index [n] takes its place
    after the indices below [n] and before every other property. *)
Fixpoint insertIndex (n : N) (key value : string) (obj : list (string * string)) : list (string * string) :=
  match obj with
  | [] => [(key, value)]
  | kv :: rest =>
      match arrayIndex (fst kv) with
      | Some m =>
          if (m <? n)%N then kv :: insertIndex n key value rest
          else (key, value) :: obj
      | None => (key, value) :: obj
      end
  end.

(** [files[key] = value] on an object literal. The object is listed as
    its own properties are enumerated: the array indices in ascending
    order, then the other keys in the order they were created. A key
    already there keeps its place and takes the new value. *)
Definition setKey (key value : string) (obj : list (string * string)) : list (string * string) :=
  if existsb (fun kv => String.eqb (fst kv) key) obj
  then (fun kv => if String.eqb (fst kv) key then (key, value) else kv) <$> obj
  else
    match arrayIndex key with
    | Some n => insertIndex n key value obj
    | None => obj ++ [(key, value)]
    end.

(** [items.forEach(log)]: the logger is called with the item, its index
    and the array. *)
Definition reported (lvl : level) (items : option (list string)) : list action :=
  match items with
  | Some l => imap (fun i item => LogEach lvl item i l) l
  | None => []
  end.

Definition forEachLog (lvl : level) (items : option (list string)) : M unit :=
  performAll (reported lvl items).

(** The bundler as [createBundles] configures it, with the [files]
    object it builds from the scripts. *)
Definition bundlerInput (cmd : PackageCommand) (scripts : list ActionInfo) : BundlerInput :=
  {| b_directory := _target cmd;
     b_modulePaths := ["node_modules"; path_resolve [module_dirname; ".."; "node_modules"]];
     b_minify := _enableMinify cmd;
     b_files :=
       fold_left
         (fun files script =>
            setKey (str (name script)) (path_resolve [_target cmd; main script]) files)
         scripts [] |}.

Definition createBundles (w : World) (cmd : PackageCommand) (scripts : list ActionInfo) : M unit :=
  let input := bundlerInput cmd scripts in
  let* stats := call (BundlerRun input) (bundler_run w input) in
  let* _ := forEachLog Error (errors stats) in
  let* _ := forEachLog Warn (warnings stats) in
  ret tt.

(** The check of one script in incremental mode: the calls it makes and
    the script afterwards. A falsy [zipFile] is deleted without asking
    the file system. *)
Definition checkZip (w : World) (script : ActionInfo) : list action * ActionInfo :=
  if truthy (zipFile script) then
    ([PathExists (str (zipFile script))],
     if pathExists w (str (zipFile script)) then script else delete_zipFile script)
  else ([], delete_zipFile script).

(** Lines 217 to 229 of [run]: the scripts are checked together, the ones
    that keep their [zipFile] are reported and left out. *)
Definition filterModified (w : World) (scripts : list ActionInfo) : M (list ActionInfo) :=
  let* scripts :=
    promise_all ((fun s => (fst (checkZip w s), Done (snd (checkZip w s)))) <$> scripts) in
  let* _ :=
    performAll (Emit "ignore-package" <$> filter (fun s => truthy (zipFile s) = true) scripts) in
  ret (filter (fun s => truthy (zipFile s) = false) scripts).

(** Lines 233 to 243 of [run]: the derived properties of one script. *)
Definition derive (cmd : PackageCommand) (script : ActionInfo) : ActionInfo :=
  let name_ := path_basename_ext (main script) ".js" in
  let bundleName_ := name_ +:+ ".bundle.js" in
  let dirname_ := if isStatic script then "" else path_dirname (main script) in
  let archiveName_ := name_ +:+ ".zip" in
  {| name := Some name_;
     main := main script;
     isStatic := isStatic script;
     requires := requires script;
     dirname := Some dirname_;
     bundleName := Some bundleName_;
     bundlePath := Some (path_resolve [_target cmd; bundleName_]);
     zipFile := Some (path_resolve [_target cmd; dirname_; archiveName_]);
     archiveName := Some archiveName_;
     archiveSize := archiveSize script;
     infoFile := Some (path_resolve [_target cmd; dirname_; name_ +:+ ".info.json"]) |}.

(** The archiving operations of lines 256 and 257, one per script. *)
Definition packageOps (w : World) (scripts : list ActionInfo) : list PackageOp :=
  (fun script => createPackage script (archive_run w script)) <$> scripts.

(** Lines 256 to 261 of [run]: the scripts are archived together and,
    once every archive is done, their descriptors are written back. All the
    [createPackage] calls start before any of their events is handled. *)
Definition archiveAndPersist (w : World) (scripts : list ActionInfo) : M unit :=
  let ops := packageOps w scripts in
  let* _ := performAll (ops ≫= started) in
  let* _ := promise_all ((fun op => (handled op, promise op)) <$> ops) in
  let scripts := descriptor <$> ops in
  let* _ :=
    promise_all
      ((fun s => ([WriteJson (infoFile s) s], write_json w (infoFile s) s)) <$> scripts) in
  ret tt.

(** Lines 232 to 261 of [run]: what is done when scripts remain. *)
Definition packageScripts (w : World) (cmd : PackageCommand) (scripts : list ActionInfo) : M unit :=
  let scripts := derive cmd <$> scripts in
  let* _ := perform (NewProgressBar (length scripts * 2 * 5)) in
  let* _ := createBundles w cmd scripts in
  archiveAndPersist w scripts.

(** What is done with the working set: lines 231 to 262. *)
Definition packaging (w : World) (cmd : PackageCommand) (scripts : list ActionInfo) : M unit :=
  match scripts with
  | [] => ret tt
  | _ => packageScripts w cmd scripts
  end.

(** The message of a signal that reports a failure. *)
Definition failureOf (sig : signal) : option string :=
  match sig with
  | Entry _ => None
  | Warning m => Some m
  | Failure m => Some m
  end.

Definition diagnostic (m : string) : action :=
  Log Error (chalk_redBright "[error] " +:+ "Unable to create archive: " +:+ m).

(** What a handler does is the same in every state. *)
Definition signalActions (archiveName : string) (sig : signal) : list action :=
  match sig with
  | Entry n => Log Debug (archiveName +:+ ": A " +:+ n) :: tick "" n
  | Warning m => [diagnostic m]
  | Failure m => [diagnostic m]
  end.

(** Whether the archive a descriptor names is on disk. *)
Definition zipExists (w : World) (script : ActionInfo) : bool :=
  match zipFile script with
  | Some z => pathExists w z
  | None => false
  end.

Section Run.

(** [flattenDependencies] is imported from packager-utils.js; [run] is
    stated over whatever it computes. *)
Variable flattenDependencies : list ActionInfo -> list ActionInfo.

(** Lines 201 to 214 of [run]: the build, the descriptors read and their
    flattening. *)
Definition loadDescriptors (w : World) (cmd : PackageCommand) : M (PackageCommand * list ActionInfo) :=
  let* cmd := init w cmd in
  let* _ := call (BuildRun (_files cmd) (_target cmd)) (build_run w (_files cmd) (_target cmd)) in
  let pattern := _target cmd +:+ "/**/*.info.json" in
  let* _ := perform (GlobSync pattern) in
  let infos := glob_sync w pattern in
  let* scriptInfos := promise_all ((fun f => ([ReadJSON f], read_json w f)) <$> infos) in
  ret (cmd, flattenDependencies scriptInfos).

(** Lines 201 to 229 of [run]: the scripts that are left to package. *)
Definition workingSet (w : World) (cmd : PackageCommand) : M (PackageCommand * list ActionInfo) :=
  let* '(cmd, scripts) := loadDescriptors w cmd in
  let* scripts := (if _onlyModified cmd then filterModified w scripts else ret scripts) in
  ret (cmd, scripts).

Definition run (w : World) (cmd : PackageCommand) : M PackageCommand :=
  let* '(cmd, scripts) := workingSet w cmd in
  let* _ := packaging w cmd scripts in
  let* _ := perform (Log Info "✅  packaging completed") in
  ret cmd.

End Run.

End WithPlatform.

End Package.

(** ** A platform for the examples

    POSIX-style paths without drive letters, the file system root as
    working directory and a terminal without colours. The properties
    below hold for every platform; this one makes the examples run. *)

Module ExamplePlatform.

Local Open Scope list_scope.

Definition isSlash (c : ascii) : bool := Ascii.eqb c "/".

(** The components of a path, the empty ones included. *)
Fixpoint splitOn (s : string) (cur : string) : list string :=
  match s with
  | EmptyString => [cur]
  | String c s' =>
      if isSlash c then cur :: splitOn s' ""
      else splitOn s' (cur +:+ String c "")
  end.

Definition components (p : string) : list string :=
  filter (fun c => c <> "") (splitOn p "").

(** The last component of the path; empty when there is none. *)
Definition basename (p : string) : string := List.last (components p) "".

Definition endsWith (suffix s : string) : bool :=
  let n := String.length s in
  let k := String.length suffix in
  Nat.leb k n && String.eqb (String.substring (n - k) k s) suffix.

(** The last component without [ext], when it ends with [ext] and is
    longer than it. *)
Definition basename_ext (p ext : string) : string :=
  let b := basename p in
  if endsWith ext b && Nat.ltb (String.length ext) (String.length b)
  then String.substring 0 (String.length b - String.length ext) b
  else b.

Definition absolute (p : string) : bool := String.prefix "/" p.

(** The path without its last component; [.] for a bare file name. *)
Definition dirname (p : string) : string :=
  match removelast (components p) with
  | [] => if absolute p then "/" else "."
  | dirs => (if absolute p then "/" else "") +:+ Json.join "/" dirs
  end.

(** One more component on a normalized list of components. *)
Definition push (acc : list string) (c : string) : list string :=
  if String.eqb c "." then acc
  else if String.eqb c ".." then removelast acc
  else acc ++ [c].

(** The segments from left to right; an absolute one starts over. *)
Definition resolve (segments : list string) : string :=
  "/" +:+ Json.join "/"
    (fold_left
       (fun acc seg => fold_left push (components seg) (if absolute seg then [] else acc))
       segments []).

#[export] Instance platform : Platform := {|
  path_basename := basename;
  path_basename_ext := basename_ext;
  path_dirname := dirname;
  path_resolve := resolve;
  module_dirname := "/opt/helix-cli/src";
  chalk_redBright := fun s => s;
|}.

End ExamplePlatform.

(** ** Scenarios

    A project with two scripts, [a.js] and [b.js], the second requiring
    the first, on the example platform. *)

Module Scenarios.

Import ExamplePlatform Descriptor Effects Package.
Local Open Scope list_scope.

Definition target : string := "/proj/.hlx/build".

(** The descriptor of a script as an earlier run has written it. *)
Definition persisted (n : string) (reqs : list string) : ActionInfo :=
  {| name := Some n;
     main := n +:+ ".js";
     isStatic := false;
     requires := reqs;
     dirname := Some ".";
     bundleName := Some (n +:+ ".bundle.js");
     bundlePath := Some (target +:+ "/" +:+ n +:+ ".bundle.js");
     zipFile := Some (target +:+ "/" +:+ n +:+ ".zip");
     archiveName := Some (n +:+ ".zip");
     archiveSize := Some 2048%N;
     infoFile := Some (target +:+ "/" +:+ n +:+ ".info.json") |}.

Definition infoA : string := target +:+ "/a.info.json".
Definition infoB : string := target +:+ "/b.info.json".

(** [a.js] was packaged before; [b.js] comes fresh from the build. *)
Definition descriptorA : ActionInfo := persisted "a" [].
Definition descriptorB : ActionInfo := built "b.js" false ["a.js"].

(** An archive written without trouble, and one whose bundle is missing. *)
Definition archived (i : ActionInfo) : ArchiveRun :=
  {| signals := [Entry "package.json"; Entry (ExamplePlatform.basename (main i))];
     closed := Some 1024%N |}.

Definition failing (i : ActionInfo) : ArchiveRun :=
  {| signals := [Entry "package.json"; Warning "ENOENT: no such file or directory"];
     closed := Some 22%N |}.

Definition quiet : Stats := {| errors := None; warnings := None |}.
Definition noisy : Stats := {| errors := Some []; warnings := Some ["circular dependency"] |}.
Definition faulty : Stats :=
  {| errors := Some ["Module not found: ./missing.js"];
     warnings := Some ["circular dependency"] |}.

Definition world (existing : list string) (stats : Stats) (archive : ActionInfo -> ArchiveRun) : World :=
  {| super_init := Done tt;
     build_run := fun _ _ => Done tt;
     glob_sync := fun _ => [infoA; infoB];
     read_json := fun f =>
       if String.eqb f infoA then Done descriptorA
       else if String.eqb f infoB then Done descriptorB
       else Thrown "ENOENT";
     disk := existing;
     bundler_run := fun _ => Done stats;
     archive_run := archive;
     write_json := fun _ _ => Done tt |}.

Definition full : PackageCommand :=
  {| directory := "/proj"; _target := ".hlx/build"; _files := ["src/*.htl"];
     _onlyModified := false; _enableMinify := false |}.

Definition incremental : PackageCommand := withOnlyModified true full.

(** The commands once [init] has resolved the target directory. *)
Definition full' : PackageCommand := withTarget target full.
Definition incremental' : PackageCommand := withTarget target incremental.

(** A project whose two scripts were both packaged before. *)
Definition upToDate : World :=
  {| super_init := Done tt;
     build_run := fun _ _ => Done tt;
     glob_sync := fun _ => [infoA; infoB];
     read_json := fun f =>
       if String.eqb f infoA then Done (persisted "a" [])
       else if String.eqb f infoB then Done (persisted "b" ["a.js"])
       else Thrown "ENOENT";
     disk := [target +:+ "/a.zip"; target +:+ "/b.zip"];
     bundler_run := fun _ => Done quiet;
     archive_run := archived;
     write_json := fun _ _ => Done tt |}.

(** The descriptors as loaded and flattened. *)
Definition loaded : list ActionInfo :=
  PackagerUtils.flattenDependencies [descriptorA; descriptorB].

(** [b.js] as flattened: it requires [a.js] and has no [zipFile]. *)
Definition flattenOneB : ActionInfo :=
  PackagerUtils.flattenOne [descriptorA; descriptorB] descriptorB.

End Scenarios.

(** ** The parts of a request path *)

Module RequestPaths.
Import JsString RequestContext.
Open Scope Z_scope.

(** The character [c] does not occur in [s]. *)
Definition lacks (c : ascii) (s : string) : Prop := lastIndexOf c s = -1.

(** A name between the separators of a path: no slash, no dot, no
    question mark. *)
Definition plain (s : string) : Prop :=
  lacks slash s /\ lacks dot s /\ lacks qmark s.

(** A directory part: nothing, or a part that ends with a slash. *)
Definition directory (dir : string) : Prop :=
  dir = "" \/ exists d, dir = d ++ "/".

(** Nothing, or a question mark followed by parameters that hold no
    slash, no dot and no further question mark. *)
Definition query (q : string) : Prop :=
  q = "" \/ exists r, q = "?" ++ r /\ plain r.

End RequestPaths.


(** ** What else a run lets one observe *)

Module Observers.

Import Descriptor Effects Package.
Local Open Scope list_scope.

(** The labels the progress bar was ticked with. *)
Definition ticks (acts : list action) : list string :=
  omap (fun a => match a with BarTick label => Some label | _ => None end) acts.

(** The messages logged as errors. *)
Definition errorsLogged (acts : list action) : list string :=
  omap (fun a => match a with Log Error m => Some m | _ => None end) acts.

(** The inputs the bundler was run on. *)
Definition bundlerCalls (acts : list action) : list BundlerInput :=
  omap (fun a => match a with BundlerRun input => Some input | _ => None end) acts.

(** The totals of the progress bars created. *)
Definition progressBars (acts : list action) : list nat :=
  omap (fun a => match a with NewProgressBar total => Some total | _ => None end) acts.

(** The names of the entries the archiver reports. *)
Definition entryNames (sigs : list signal) : list string :=
  omap (fun sig => match sig with Entry n => Some n | _ => None end) sigs.

(** The values the fulfilled promises of some operations hold. *)
Definition fulfilled (ops : list PackageOp) : list ActionInfo :=
  omap (fun op => match promise op with Done d => Some d | _ => None end) ops.

(** The last call of a run that completes. *)
Definition completed : action := Log Info "✅  packaging completed".

(** A descriptor file is written. *)
Definition persisting (a : action) : bool :=
  match a with
  | WriteJson _ _ => true
  | _ => false
  end.

(** An archive is written or announced. *)
Definition producing (a : action) : bool :=
  match a with
  | Emit e _ => String.eqb e "create-package"
  | _ => archiving a
  end.

(** The keys of an object literal, in order. *)
Definition keys (obj : list (string * string)) : list string := fst <$> obj.

(** The key [k1] may be enumerated before [k2]: an array index comes
    before a larger one and before every key that is none. *)
Definition enumeratedBefore (k1 k2 : string) : Prop :=
  match arrayIndex k1, arrayIndex k2 with
  | Some a, Some b => (a < b)%N
  | None, Some _ => False
  | _, None => True
  end.

(** The object literal built by assigning, script after script, the
    value of the script to its key, as [createBundles] builds [files]. *)
Definition collectFiles (key value : ActionInfo -> string)
    (acc : list (string * string)) (scripts : list ActionInfo) : list (string * string) :=
  fold_left (fun files script => setKey (key script) (value script) files) scripts acc.

End Observers.



(** ** Runs that go wrong *)

Module Mishaps.

Import ExamplePlatform Descriptor Effects Package Scenarios.
Local Open Scope list_scope.

(** The build of the scripts fails. *)
Definition brokenBuild : World :=
  {| super_init := Done tt;
     build_run := fun _ _ => Thrown "build failed";
     glob_sync := glob_sync (world [] quiet archived);
     read_json := read_json (world [] quiet archived);
     disk := [];
     bundler_run := fun _ => Done quiet;
     archive_run := archived;
     write_json := fun _ _ => Done tt |}.

(** The descriptor file of [b.js] does not parse. *)
Definition unreadable : World :=
  {| super_init := Done tt;
     build_run := fun _ _ => Done tt;
     glob_sync := fun _ => [infoA; infoB];
     read_json := fun f =>
       if String.eqb f infoA then Done descriptorA
       else Thrown "Unexpected end of JSON input";
     disk := [];
     bundler_run := fun _ => Done quiet;
     archive_run := archived;
     write_json := fun _ _ => Done tt |}.

(** The bundler rejects. *)
Definition brokenBundler : World :=
  {| super_init := Done tt;
     build_run := fun _ _ => Done tt;
     glob_sync := glob_sync (world [] quiet archived);
     read_json := read_json (world [] quiet archived);
     disk := [];
     bundler_run := fun _ => Thrown "webpack failed";
     archive_run := archived;
     write_json := fun _ _ => Done tt |}.

(** The bundle of [b.js] is missing when its archive is written. *)
Definition halfArchived (i : ActionInfo) : ArchiveRun :=
  if String.eqb (main i) "b.js" then failing i else archived i.

End Mishaps.


(** * Properties *)

Module RequestContextExamples.
Import RequestContext.

Example ctx_html :
  let c := constructor {| url := Some "/docs/page.print.html?x=1" |} tt in
  (resourcePath c, selector c, extension c) = ("/docs/page", "print", "html").
Proof. reflexivity. Qed.

Example ctx_dir :
  let c := constructor {| url := Some "/docs/" |} tt in
  (resourcePath c, selector c, extension c) = ("/docs/index", "", "").
Proof. reflexivity. Qed.

Example ctx_plain :
  let c := constructor {| url := Some "/docs/readme" |} tt in
  (resourcePath c, selector c, extension c) = ("/docs/readme", "", "").
Proof. reflexivity. Qed.

End RequestContextExamples.

(** ** Properties of the request context *)

Module RequestContextFacts.
Import JsString RequestContext.
Open Scope Z_scope.

Lemma lastIndexOfFrom_bounds c s i acc :
  -1 <= acc < i ->
  -1 <= lastIndexOfFrom c s i acc < i + len s.
Proof.
  revert i acc. induction s as [|a s IH]; intros i acc Hacc; simpl.
  - unfold len; simpl. lia.
  - assert (Hl : len (String a s) = 1 + len s)
      by (unfold len; simpl String.length; lia).
    rewrite Hl.
    specialize (IH (i + 1) (if Ascii.eqb a c then i else acc)).
    destruct (Ascii.eqb a c); lia.
Qed.

Lemma lastIndexOf_lt_len c s : lastIndexOf c s < len s.
Proof.
  unfold lastIndexOf.
  pose proof (lastIndexOfFrom_bounds c s 0 (-1)). lia.
Qed.

Lemma append_nil (t : string) : "" ++ t = t.
Proof. reflexivity. Qed.

Lemma append_cons a (s t : string) : String a s ++ t = String a (s ++ t).
Proof. reflexivity. Qed.

Lemma len_cons a s : len (String a s) = 1 + len s.
Proof. unfold len. cbn [String.length]. lia. Qed.

Lemma len_app s1 s2 : len (s1 ++ s2) = len s1 + len s2.
Proof.
  induction s1 as [|a s1 IH].
  - rewrite append_nil. unfold len at 2. cbn. lia.
  - rewrite append_cons, !len_cons, IH. lia.
Qed.

Lemma lastIndexOfFrom_snoc c s i acc :
  lastIndexOfFrom c (s ++ String c "") i acc = i + len s.
Proof.
  revert i acc. induction s as [|a s IH]; intros i acc.
  - rewrite append_nil. cbn [lastIndexOfFrom]. rewrite Ascii.eqb_refl.
    change (len "") with 0. lia.
  - rewrite append_cons. cbn [lastIndexOfFrom]. rewrite IH, len_cons. lia.
Qed.

Lemma lastIndexOfFrom_snoc_ne c d s i acc :
  c <> d ->
  lastIndexOfFrom c (s ++ String d "") i acc = lastIndexOfFrom c s i acc.
Proof.
  intros Hne. revert i acc. induction s as [|a s IH]; intros i acc.
  - rewrite append_nil. cbn.
    destruct (Ascii.eqb d c) eqn:E; [|reflexivity].
    apply Ascii.eqb_eq in E. congruence.
  - rewrite append_cons. cbn [lastIndexOfFrom]. apply IH.
Qed.

(** A path that ends with a slash takes the [index] branch. *)
Lemma constructor_trailing_slash {Cfg} (u : option string) (cfg : Cfg) p :
  pathOf u = p ++ "/" ->
  let c := constructor {| url := u |} cfg in
  path c = p ++ "/" /\
  resourcePath c = (p ++ "/") ++ "index" /\
  extension c = "" /\ selector c = "".
Proof.
  intros Hp. unfold constructor. cbn [url]. rewrite Hp.
  assert (Hs : lastIndexOf slash (p ++ "/") = len p).
  { unfold lastIndexOf. change "/" with (String slash "").
    rewrite lastIndexOfFrom_snoc. lia. }
  assert (Hd : lastIndexOf dot (p ++ "/") < len p).
  { unfold lastIndexOf. change "/" with (String slash "").
    rewrite lastIndexOfFrom_snoc_ne by discriminate.
    apply (lastIndexOf_lt_len dot p). }
  rewrite Hs.
  destruct (Z.ltb_spec (len p) (lastIndexOf dot (p ++ "/"))) as [Hlt|_]; [lia|].
  rewrite len_app.
  replace (len "/") with 1 by reflexivity.
  replace (len p + 1 - 1) with (len p) by lia.
  rewrite Z.eqb_refl. cbn. auto.
Qed.

(** C10: a request whose url ends with a slash, or whose url is absent,
    gets a context whose path is that url (the single slash when it is
    absent), whose resource path is the path followed by [index], and
    whose extension and selector are both empty. *)
Theorem constructor_directory_index {Cfg} (req : Request) (cfg : Cfg) :
  (url req = None \/ exists p, url req = Some (p ++ "/")) ->
  let c := constructor req cfg in
  path c = match url req with Some u => u | None => "/" end /\
  resourcePath c = path c ++ "index" /\
  extension c = "" /\
  selector c = "".
Proof.
  intros H. destruct req as [u]. cbn [url] in *.
  assert (Hp : exists p, pathOf u = p ++ "/" /\
                         p ++ "/" = match u with Some u' => u' | None => "/" end).
  { destruct H as [-> | [p ->]].
    - exists "". split; reflexivity.
    - exists p. split; [|reflexivity]. destruct p as [|a p]; reflexivity. }
  destruct Hp as (p & Hp & Hu).
  destruct (constructor_trailing_slash u cfg p Hp) as (H1 & H2 & H3 & H4).
  cbn zeta. rewrite H1, H2, H3, H4, <- Hu. repeat split.
Qed.

Lemma constructor_directory_index_witness :
  let c := constructor {| url := Some ("/docs" ++ "/") |} tt in
  path c = "/docs/" /\ resourcePath c = "/docs/index" /\
  extension c = "" /\ selector c = "".
Proof.
  destruct (constructor_directory_index {| url := Some ("/docs" ++ "/") |} tt)
    as (H1 & H2 & H3 & H4).
  { right. exists "/docs". reflexivity. }
  cbn zeta in *. rewrite H2, H1, H3, H4. repeat split.
Defined.

End RequestContextFacts.

(** ** Properties of the dependency flattener *)

Module PackagerUtilsFacts.

Import Descriptor PackagerUtils.

Lemma elem_of_requiredBy scripts p q :
  q ∈ requiredBy scripts p <-> exists s, s ∈ scripts /\ main s = p /\ q ∈ requires s.
Proof.
  unfold requiredBy. rewrite list_elem_of_bind. split.
  - intros (s & Hq & Hs). apply list_elem_of_filter in Hs as [Hm Hs]. eauto.
  - intros (s & Hs & Hm & Hq). exists s. split; [done|].
    apply list_elem_of_filter. auto.
Qed.

Lemma requiredBy_required scripts p q :
  q ∈ requiredBy scripts p -> q ∈ required scripts.
Proof.
  rewrite elem_of_requiredBy. intros (s & Hs & _ & Hq).
  unfold required. rewrite elem_of_remove_dups, list_elem_of_bind. eauto.
Qed.

Lemma elem_of_expand scripts acc q :
  q ∈ expand scripts acc <->
  q ∈ acc \/ exists p, p ∈ acc /\ q ∈ requiredBy scripts p.
Proof.
  unfold expand. rewrite elem_of_remove_dups, elem_of_app, list_elem_of_bind.
  split; (intros [H | (p & H1 & H2)]; [left | right]); eauto.
Qed.

Lemma NoDup_expand scripts acc : NoDup (expand scripts acc).
Proof. apply NoDup_remove_dups. Qed.

(** Two duplicate-free lists, one inside the other and no longer, hold
    the same paths. *)
Lemma NoDup_incl_length (l k : list string) :
  NoDup l -> (forall x, x ∈ l -> x ∈ k) -> length k <= length l ->
  forall x, x ∈ k -> x ∈ l.
Proof.
  intros Hl Hincl Hlen x Hx.
  pose proof (NoDup_submseteq l k Hl Hincl) as Hsub.
  pose proof (submseteq_length_Permutation l k Hsub Hlen) as Hperm.
  by rewrite Hperm.
Qed.

Lemma expand_length scripts acc :
  NoDup acc -> length acc <= length (expand scripts acc).
Proof.
  intros Hacc. apply submseteq_length, NoDup_submseteq; [done|].
  intros x Hx. apply elem_of_expand. by left.
Qed.

Lemma NoDup_saturate fuel scripts acc :
  NoDup acc -> NoDup (saturate fuel scripts acc).
Proof.
  revert acc. induction fuel as [|fuel IH]; intros acc Hacc; simpl; [done|].
  destruct (Nat.eqb _ _); [done|]. apply IH, NoDup_expand.
Qed.

Lemma saturate_incl fuel scripts acc p :
  p ∈ acc -> p ∈ saturate fuel scripts acc.
Proof.
  revert acc. induction fuel as [|fuel IH]; intros acc Hp; simpl; [done|].
  destruct (Nat.eqb _ _); [done|]. apply IH, elem_of_expand. by left.
Qed.

Lemma saturate_reaches fuel scripts from acc q :
  (forall p, p ∈ acc -> reaches scripts from p) ->
  q ∈ saturate fuel scripts acc -> reaches scripts from q.
Proof.
  revert acc. induction fuel as [|fuel IH]; intros acc Hacc; simpl; [auto|].
  destruct (Nat.eqb _ _); [auto|].
  apply IH. intros p [Hp | (r & Hr & Hp)]%elem_of_expand; [auto|].
  eapply reaches_step; eauto.
Qed.

(** With fuel for every path that can still be added, the result of
    [saturate] holds whatever its own paths require. *)
Lemma saturate_closed fuel scripts acc :
  NoDup acc ->
  (forall p, p ∈ acc -> p ∈ required scripts) ->
  length (required scripts) <= length acc + fuel ->
  forall p q, p ∈ saturate fuel scripts acc -> q ∈ requiredBy scripts p ->
              q ∈ saturate fuel scripts acc.
Proof.
  revert acc. induction fuel as [|fuel IH]; intros acc Hnd Hsub Hlen p q Hp Hq.
  - simpl in *.
    apply (NoDup_incl_length acc (required scripts)); [done|done|lia|].
    by eapply requiredBy_required.
  - simpl in *.
    destruct (Nat.eqb_spec (length (expand scripts acc)) (length acc)) as [E|E].
    + apply (NoDup_incl_length acc (expand scripts acc)); [done| |lia|].
      * intros x Hx. apply elem_of_expand. by left.
      * apply elem_of_expand. right. eauto.
    + eapply (IH (expand scripts acc)); eauto using NoDup_expand.
      * intros x [Hx | (r & _ & Hx)]%elem_of_expand; [auto|].
        by eapply requiredBy_required.
      * pose proof (expand_length scripts acc Hnd). lia.
Qed.

Lemma requires_required scripts s p :
  s ∈ scripts -> p ∈ requires s -> p ∈ required scripts.
Proof.
  intros Hs Hp. unfold required.
  rewrite elem_of_remove_dups, list_elem_of_bind. eauto.
Qed.

Lemma NoDup_closure scripts s : NoDup (closure scripts s).
Proof. apply NoDup_saturate, NoDup_remove_dups. Qed.

Lemma closure_direct scripts s p : p ∈ requires s -> p ∈ closure scripts s.
Proof. intros Hp. apply saturate_incl. by apply elem_of_remove_dups. Qed.

Lemma closure_closed scripts s p q :
  s ∈ scripts -> p ∈ closure scripts s -> q ∈ requiredBy scripts p ->
  q ∈ closure scripts s.
Proof.
  intros Hs. apply saturate_closed.
  - apply NoDup_remove_dups.
  - intros x Hx. rewrite elem_of_remove_dups in Hx.
    exact (requires_required scripts s x Hs Hx).
  - lia.
Qed.

(** The closure holds exactly the paths reached from [requires s]. *)
Lemma elem_of_closure scripts s q :
  s ∈ scripts -> q ∈ closure scripts s <-> reaches scripts (requires s) q.
Proof.
  intros Hs. split.
  - apply saturate_reaches. intros p Hp. rewrite elem_of_remove_dups in Hp.
    by apply reaches_base.
  - induction 1 as [p Hp | p r _ IH Hr].
    + by apply closure_direct.
    + by eapply closure_closed.
Qed.

Lemma requires_flattenOne scripts s q :
  q ∈ requires (flattenOne scripts s) <-> q <> main s /\ q ∈ closure scripts s.
Proof.
  unfold flattenOne. cbn [requires set_requires].
  by rewrite list_elem_of_filter.
Qed.

(** What the flattener leaves alone. *)
Lemma flattenOne_main scripts s : main (flattenOne scripts s) = main s.
Proof. reflexivity. Qed.

Lemma flattenOne_zipFile scripts s : zipFile (flattenOne scripts s) = zipFile s.
Proof. reflexivity. Qed.

Lemma length_flattenDependencies scripts :
  length (flattenDependencies scripts) = length scripts.
Proof. apply length_fmap. Qed.

End PackagerUtilsFacts.

(** ** The flattened [requires] *)

Module FlattenerClaims.

Import Descriptor PackagerUtils PackagerUtilsFacts.

(** Scenario: [a.js] without requirements and [b.js] requiring [a.js]. *)
Example flatten_two_scripts :
  requires <$> flattenDependencies [built "a.js" false []; built "b.js" false ["a.js"]]
  = [[]; ["a.js"]].
Proof. reflexivity. Qed.

Example flatten_chain :
  requires <$> flattenDependencies
    [built "a.js" false ["b.js"; "b.js"]; built "b.js" false ["c.js"];
     built "c.js" false ["d.js"]]
  = [["b.js"; "c.js"; "d.js"]; ["c.js"; "d.js"]; ["d.js"]].
Proof. reflexivity. Qed.

Example flatten_cycle :
  requires <$> flattenDependencies [built "a.js" false ["b.js"]; built "b.js" false ["a.js"]]
  = [["b.js"]; ["a.js"]].
Proof. reflexivity. Qed.

(** C1, as stated, fails on a cycle: [a.js] requires [b.js] and [b.js]
    requires [a.js], so closure under transitivity asks for [a.js] in the
    flattened [requires] of [a.js], which self-exclusion forbids. *)
Lemma flatten_cycle_not_transitive :
  let A := built "a.js" false ["b.js"] in
  let B := built "b.js" false ["a.js"] in
  let scripts := [A; B] in
  ~ (forall A', flattenDependencies scripts !! 0%nat = Some A' ->
       NoDup (requires A') /\
       (main A ∉ requires A') /\
       (forall B' c, B' ∈ scripts -> main B' ∈ requires A -> c ∈ requires B' ->
                     c ∈ requires A')).
Proof.
  intros A B scripts H.
  destruct (H (flattenOne scripts A) eq_refl) as (_ & Hself & Htrans).
  apply Hself. apply (Htrans B "a.js").
  - subst scripts. apply elem_of_cons. right. apply elem_of_cons. by left.
  - cbn. apply elem_of_cons. by left.
  - cbn. apply elem_of_cons. by left.
Qed.

(** What is reached from the [requires] of a reached script is reached. *)
Lemma reaches_through scripts from B c :
  B ∈ scripts ->
  reaches scripts from (main B) ->
  reaches scripts (requires B) c ->
  reaches scripts from c.
Proof.
  intros HB Hfrom. induction 1 as [c Hc | p c _ IH Hc].
  - apply (reaches_step _ _ (main B)); [done|].
    apply elem_of_requiredBy. eauto.
  - by apply (reaches_step _ _ p).
Qed.

(** C1 (amended): in the output of the flattener the [requires] of every
    script has no duplicates, never holds the script itself, and holds
    every path reached from the script through one or more [requires]
    other than the script's own path, and nothing else. So it is closed
    under transitivity for every path other than the script's own: if A
    requires B and B requires C, and C is not A, then the flattened
    [requires] of A holds C; and the same holds of the flattened lists
    themselves, over any number of steps. *)
Theorem flattenDependencies_requires (scripts : list ActionInfo) (i : nat) (A A' : ActionInfo) :
  scripts !! i = Some A ->
  flattenDependencies scripts !! i = Some A' ->
  NoDup (requires A') /\
  (main A ∉ requires A') /\
  (forall B c, B ∈ scripts -> main B ∈ requires A -> c ∈ requires B ->
               c <> main A -> c ∈ requires A') /\
  (forall c, c ∈ requires A' <-> c <> main A /\ reaches scripts (requires A) c) /\
  (forall j B B' c,
     scripts !! j = Some B ->
     flattenDependencies scripts !! j = Some B' ->
     main B ∈ requires A' -> c ∈ requires B' -> c <> main A -> c ∈ requires A').
Proof.
  intros HA HA'. unfold flattenDependencies in *.
  rewrite list_lookup_fmap, HA in HA'. injection HA' as <-.
  assert (Hin : A ∈ scripts) by (apply list_elem_of_lookup; eauto).
  assert (Hiff : forall B c, B ∈ scripts ->
            c ∈ requires (flattenOne scripts B) <->
            c <> main B /\ reaches scripts (requires B) c).
  { intros B c HB. by rewrite requires_flattenOne, elem_of_closure. }
  split; [|split; [|split; [|split]]].
  - unfold flattenOne. cbn [requires set_requires].
    apply NoDup_filter, NoDup_closure.
  - rewrite requires_flattenOne. intros [Hne _]. by apply Hne.
  - intros B c HB HAB HBc Hne. apply Hiff; [done|]. split; [done|].
    apply (reaches_step _ _ (main B)); [by apply reaches_base|].
    apply elem_of_requiredBy. eauto.
  - intros c. by apply Hiff.
  - intros j B B' c HB HB' HAB HBc Hne.
    rewrite list_lookup_fmap, HB in HB'. injection HB' as <-.
    assert (HinB : B ∈ scripts) by (apply list_elem_of_lookup; eauto).
    apply Hiff in HAB as [_ HAB]; [|done]. apply Hiff in HBc as [_ HBc]; [|done].
    apply Hiff; [done|]. split; [done|]. by apply (reaches_through scripts _ B).
Qed.

Lemma flattenDependencies_requires_witness :
  let A := built "a.js" false ["b.js"] in
  let B := built "b.js" false ["c.js"; "a.js"] in
  let C := built "c.js" false ["d.js"] in
  let scripts := [A; B; C] in
  let A' := flattenOne scripts A in
  "d.js" ∈ requires A' /\
  NoDup (requires A') /\
  (main A ∉ requires A') /\
  (forall B c, B ∈ scripts -> main B ∈ requires A -> c ∈ requires B ->
               c <> main A -> c ∈ requires A') /\
  (forall c, c ∈ requires A' <-> c <> main A /\ reaches scripts (requires A) c) /\
  (forall j B B' c,
     scripts !! j = Some B ->
     flattenDependencies scripts !! j = Some B' ->
     main B ∈ requires A' -> c ∈ requires B' -> c <> main A -> c ∈ requires A').
Proof.
  intros A B C scripts A'. split; [by apply (bool_decide_unpack _)|].
  apply (flattenDependencies_requires scripts 0 A A'); reflexivity.
Defined.

End FlattenerClaims.

(** ** Properties of asynchronous computations *)

Module EffectFacts.

Import Descriptor Effects.
Local Open Scope list_scope.

Lemma fst_bind {A B} (m : M A) (k : A -> M B) :
  fst (bind m k) = fst m ++ match snd m with Done a => fst (k a) | _ => [] end.
Proof.
  destruct m as [t [a|e|]]; cbn; rewrite ?app_nil_r; [|done|done].
  by destruct (k a).
Qed.

Lemma snd_bind {A B} (m : M A) (k : A -> M B) :
  snd (bind m k) =
  match snd m with Done a => snd (k a) | Thrown e => Thrown e | Pending => Pending end.
Proof. destruct m as [t [a|e|]]; cbn; [|done|done]. by destruct (k a). Qed.

Lemma bind_Done {A B} (m : M A) (k : A -> M B) t a :
  m = (t, Done a) -> bind m k = (t ++ fst (k a), snd (k a)).
Proof. intros ->. cbn. by destruct (k a). Qed.

Lemma join_cons {A} (l : list A) (ls : list (list A)) : mjoin (l :: ls) = l ++ mjoin ls.
Proof. done. Qed.

Lemma calls_app t1 t2 : calls (t1 ++ t2) = calls t1 ++ calls t2.
Proof. apply bind_app. Qed.

Lemma calls_Do (acts : list action) : calls (Do <$> acts) = acts.
Proof.
  induction acts as [|a acts IH]; [done|].
  cbn. unfold calls in IH. by rewrite IH.
Qed.

Lemma calls_cons_Do a t : calls (Do a :: t) = a :: calls t.
Proof. done. Qed.

Lemma calls_cons_All ts t : calls (All ts :: t) = mjoin ts ++ calls t.
Proof. done. Qed.

Lemma emitted_app event a1 a2 :
  emitted event (a1 ++ a2) = emitted event a1 ++ emitted event a2.
Proof. apply omap_app. Qed.

Lemma written_app a1 a2 : written (a1 ++ a2) = written a1 ++ written a2.
Proof. apply omap_app. Qed.

Lemma emitted_Emit event (ds : list ActionInfo) :
  emitted event (Emit event <$> ds) = ds.
Proof.
  induction ds as [|d ds IH]; [done|].
  cbn. rewrite String.eqb_refl. unfold emitted in IH. by rewrite IH.
Qed.

Lemma without_app P a1 a2 : without P (a1 ++ a2) <-> without P a1 /\ without P a2.
Proof. apply Forall_app. Qed.

(** In an interleaving every call is a call of one of the operations. *)
Lemma interleaving_elem_of ts l a :
  interleaving ts l -> a ∈ l -> a ∈ mjoin ts.
Proof.
  induction 1 as [ts Hts | ts i b t l Hi _ IH]; intros Ha.
  - by apply elem_of_nil in Ha.
  - apply list_elem_of_join. apply elem_of_cons in Ha as [-> | Ha].
    + exists (b :: t). split; [apply elem_of_cons; by left|].
      apply list_elem_of_lookup. eauto.
    + apply IH, list_elem_of_join in Ha as (t' & Ha & Ht').
      apply list_elem_of_lookup in Ht' as [j Hj].
      destruct (decide (i = j)) as [->|Hne].
      * rewrite list_lookup_insert_eq in Hj by (by eapply lookup_lt_Some).
        injection Hj as <-. exists (b :: t). split.
        -- apply elem_of_cons. by right.
        -- apply list_elem_of_lookup. eauto.
      * rewrite list_lookup_insert_ne in Hj by done.
        exists t'. split; [done|]. apply list_elem_of_lookup. eauto.
Qed.

Lemma linearization_elem_of t l a :
  linearization t l -> a ∈ l -> a ∈ calls t.
Proof.
  induction 1 as [|b t l _ IH | ts t l1 l2 Hts _ IH]; intros Ha.
  - done.
  - rewrite calls_cons_Do. apply elem_of_cons in Ha as [-> | Ha].
    + apply elem_of_cons. by left.
    + apply elem_of_cons. right. by apply IH.
  - rewrite calls_cons_All. apply elem_of_app in Ha as [Ha | Ha].
    + apply elem_of_app. left. by eapply interleaving_elem_of.
    + apply elem_of_app. right. by apply IH.
Qed.

(** A linearization of two traces in a row is a linearization of the
    first followed by one of the second. *)
Lemma linearization_app t1 t2 l :
  linearization (t1 ++ t2) l ->
  exists l1 l2, l = l1 ++ l2 /\ linearization t1 l1 /\ linearization t2 l2.
Proof.
  revert l. induction t1 as [|s t1 IH]; intros l Hl.
  - exists [], l. repeat split; [constructor | done].
  - inversion Hl as [|a t l' Hl' | ts t la lb Hts Hl']; subst.
    + destruct (IH _ Hl') as (l1 & l2 & -> & H1 & H2).
      exists (a :: l1), l2. repeat split; [by constructor | done].
    + destruct (IH _ Hl') as (l1 & l2 & -> & H1 & H2).
      exists (la ++ l1), l2. rewrite app_assoc. repeat split; [by constructor | done].
Qed.

(** A trace has a linearization: its operations one after the other. *)
Lemma interleaving_join ts : interleaving ts (mjoin ts).
Proof.
  assert (Hgen : forall pre ts, Forall (fun t => t = []) pre ->
                                interleaving (pre ++ ts) (mjoin ts)).
  { intros pre ts0. revert pre. induction ts0 as [|t ts0 IH]; intros pre Hpre.
    - rewrite app_nil_r. by constructor.
    - cbn. induction t as [|a t IHt].
      + cbn. replace (pre ++ [] :: ts0) with ((pre ++ [[]]) ++ ts0)
          by (by rewrite <- app_assoc).
        apply IH. apply Forall_app. split; [done|]. by constructor.
      + cbn. apply (interleaving_next _ (length pre) a t).
        * by rewrite list_lookup_middle.
        * rewrite insert_app_r_alt by lia. rewrite Nat.sub_diag. exact IHt. }
  apply (Hgen []). constructor.
Qed.

Lemma linearization_calls t : linearization t (calls t).
Proof.
  induction t as [|[a|ts] t IH].
  - constructor.
  - rewrite calls_cons_Do. by constructor.
  - rewrite calls_cons_All. constructor; [apply interleaving_join | done].
Qed.

End EffectFacts.

(** ** Properties of [createPackage] *)

Module CreatePackageFacts.

Import Descriptor Effects Package EffectFacts.
Local Open Scope list_scope.

Section WithPlatform.

Context `{Platform}.

Lemma onSignal_actions archiveName sig st :
  fst (onSignal archiveName sig st) = signalActions archiveName sig.
Proof. by destruct sig. Qed.

Lemma onSignals_actions archiveName sigs st :
  fst (onSignals archiveName sigs st) = sigs ≫= signalActions archiveName.
Proof.
  revert st. induction sigs as [|sig sigs IH]; intros st; [done|].
  cbn [onSignals]. pose proof (onSignal_actions archiveName sig st) as Hsig.
  destruct (onSignal archiveName sig st) as [a1 st1].
  specialize (IH st1). destruct (onSignals archiveName sigs st1) as [a2 st2].
  cbn in *. by rewrite Hsig, IH.
Qed.

(** The state the handlers leave behind: the descriptor untouched, the
    error flag raised by any failure, the promise rejected by the first. *)
Lemma onSignals_state archiveName sigs st :
  snd (onSignals archiveName sigs st) =
  {| info := info st;
     hadErrors := hadErrors st || bool_decide (omap failureOf sigs <> []);
     settled :=
       match settled st, omap failureOf sigs with
       | Pending, m :: _ => Thrown m
       | o, _ => o
       end |}.
Proof.
  revert st. induction sigs as [|sig sigs IH]; intros st.
  - destruct st as [i e o]. cbn. rewrite orb_false_r. by destruct o.
  - cbn [onSignals].
    destruct (onSignal archiveName sig st) as [a1 st1] eqn:E1.
    specialize (IH st1). destruct (onSignals archiveName sigs st1) as [a2 st2].
    cbn [snd] in *. rewrite IH. clear IH.
    destruct sig as [n|m|m]; cbn in E1; injection E1 as <- <-; cbn.
    + done.
    + destruct st as [i e o]; cbn. rewrite orb_true_r.
      destruct o, (omap failureOf sigs); by rewrite ?orb_true_r.
    + destruct st as [i e o]; cbn. rewrite orb_true_r.
      destruct o, (omap failureOf sigs); by rewrite ?orb_true_r.
Qed.

Lemma elem_of_failures (sigs : list signal) (m : string) :
  m ∈ omap failureOf sigs <-> Warning m ∈ sigs \/ Failure m ∈ sigs.
Proof.
  rewrite list_elem_of_omap. split.
  - intros (sig & Hsig & Hm). destruct sig; cbn in Hm; simplify_eq; auto.
  - intros [Hm | Hm]; eexists; (split; [exact Hm | done]).
Qed.

Lemma emitted_signalActions event archiveName (sigs : list signal) :
  emitted event (sigs ≫= signalActions archiveName) = [].
Proof.
  induction sigs as [|sig sigs IH]; [done|].
  cbn. unfold emitted in *. rewrite omap_app, IH, app_nil_r.
  destruct sig as [n|m|m]; cbn; [|done|done].
  unfold tick. by destruct (String.eqb n "").
Qed.

(** What [createPackage] starts with, whenever the descriptor names its
    archive. *)
Lemma createPackage_started i run zf :
  zipFile i = Some zf ->
  started (createPackage i run) =
  [CreateWriteStream zf;
   Log Debug ("preparing package " +:+ path_basename zf);
   ArchiveAppend (Json.stringify "  " (packageJson i)) "package.json";
   ArchiveFile (bundlePath i) (path_basename (main i));
   ArchiveFinalize].
Proof.
  intros Hz. unfold createPackage. rewrite Hz.
  destruct (onSignals _ _ _) as [a1 st1].
  by destruct (closed run) as [n|]; [destruct (onClose _ n st1)|].
Qed.

(** [createPackage] in closed form: the handlers run over the signals,
    then the close of the stream is handled. *)
Lemma createPackage_handled i run zf :
  zipFile i = Some zf ->
  handled (createPackage i run) =
  (signals run ≫= signalActions (path_basename zf)) ++
  match closed run, omap failureOf (signals run) with
  | Some n, [] =>
      [Log Debug (path_basename zf +:+ ": Created package. " +:+ decimal n +:+ " total bytes");
       Emit "create-package" (set_archiveSize n i)]
  | _, _ => []
  end.
Proof.
  intros Hz. unfold createPackage. rewrite Hz.
  pose proof (onSignals_actions (path_basename zf) (signals run)
                {| info := i; hadErrors := false; settled := Pending |}) as Ha.
  pose proof (onSignals_state (path_basename zf) (signals run)
                {| info := i; hadErrors := false; settled := Pending |}) as Hs.
  destruct (onSignals _ _ _) as [a1 st1]. cbn in Ha, Hs. subst a1 st1.
  destruct (closed run) as [n|]; [|done].
  unfold onClose. cbn. by destruct (omap failureOf (signals run)).
Qed.

Lemma createPackage_promise i run zf :
  zipFile i = Some zf ->
  promise (createPackage i run) =
  match omap failureOf (signals run), closed run with
  | m :: _, _ => Thrown m
  | [], Some n => Done (set_archiveSize n i)
  | [], None => Pending
  end.
Proof.
  intros Hz. unfold createPackage. rewrite Hz.
  pose proof (onSignals_state (path_basename zf) (signals run)
                {| info := i; hadErrors := false; settled := Pending |}) as Hs.
  destruct (onSignals _ _ _) as [a1 st1]. cbn in Hs. subst st1.
  destruct (closed run) as [n|]; unfold onClose; cbn;
    by destruct (omap failureOf (signals run)).
Qed.

Lemma createPackage_descriptor i run :
  descriptor (createPackage i run) =
  match zipFile i, omap failureOf (signals run), closed run with
  | Some _, [], Some n => set_archiveSize n i
  | _, _, _ => i
  end.
Proof.
  unfold createPackage. destruct (zipFile i) as [zf|]; [|done].
  pose proof (onSignals_state (path_basename zf) (signals run)
                {| info := i; hadErrors := false; settled := Pending |}) as Hs.
  destruct (onSignals _ _ _) as [a1 st1]. cbn in Hs. subst st1.
  destruct (closed run) as [n|]; unfold onClose; cbn;
    by destruct (omap failureOf (signals run)).
Qed.

(** C2: when the archiver signals a warning or an error while a script is
    archived, the promise of [createPackage] is rejected with the first
    such signal, every one of them is logged as an error, the descriptor
    is left as it was (no [archiveSize] is assigned) and no
    [create-package] notification is emitted. *)
Theorem createPackage_failure (i : ActionInfo) (run : ArchiveRun) (zf : string) :
  zipFile i = Some zf ->
  (exists m, Warning m ∈ signals run \/ Failure m ∈ signals run) ->
  let op := createPackage i run in
  (exists m, promise op = Thrown m /\ (Warning m ∈ signals run \/ Failure m ∈ signals run)) /\
  (forall m, Warning m ∈ signals run \/ Failure m ∈ signals run ->
             diagnostic m ∈ handled op) /\
  descriptor op = i /\
  archiveSize (descriptor op) = archiveSize i /\
  emitted "create-package" (started op ++ handled op) = [].
Proof.
  intros Hz [m0 Hm0] op. subst op.
  apply elem_of_failures in Hm0.
  assert (Hne : exists m rest, omap failureOf (signals run) = m :: rest).
  { destruct (omap failureOf (signals run)) as [|m rest]; [|eauto].
    by apply elem_of_nil in Hm0. }
  destruct Hne as (m & rest & Hfail).
  assert (Hd : descriptor (createPackage i run) = i).
  { rewrite createPackage_descriptor, Hz, Hfail. done. }
  split; [|split; [|split; [|split]]].
  - exists m. split.
    + by rewrite (createPackage_promise i run zf Hz), Hfail.
    + apply elem_of_failures. rewrite Hfail. apply elem_of_cons. by left.
  - intros m' Hm'. rewrite (createPackage_handled i run zf Hz).
    apply elem_of_app. left. apply list_elem_of_bind.
    destruct Hm' as [Hm' | Hm']; eexists; (split; [|exact Hm']);
      cbn; apply elem_of_cons; by left.
  - exact Hd.
  - by rewrite Hd.
  - rewrite emitted_app, (createPackage_started i run zf Hz).
    rewrite (createPackage_handled i run zf Hz), Hfail, emitted_app.
    rewrite emitted_signalActions. by destruct (closed run).
Qed.

(** C3: when the stream of a script's archive closes and no warning or
    error was signalled before, the archiver was given exactly two
    entries: [package.json], the manifest printed as JSON with an
    indentation of two spaces, whose [main] is the basename of the entry
    script, whose version is [1.0] and whose license is [Apache-2.0]; and
    the bundle file, under the basename of the entry script. The
    descriptor gets the bytes written as [archiveSize], the promise is
    fulfilled with it, and exactly one [create-package] notification
    is emitted, carrying it. *)
Theorem createPackage_success (i : ActionInfo) (run : ArchiveRun) (zf : string) (n : N) :
  zipFile i = Some zf ->
  (forall m, (Warning m ∉ signals run) /\ (Failure m ∉ signals run)) ->
  closed run = Some n ->
  let op := createPackage i run in
  entries (started op) =
    [("package.json", Inline (Json.stringify "  " (packageJson i)));
     (path_basename (main i), FromFile (bundlePath i))] /\
  Json.get "main" (packageJson i) = Some (path_basename (main i)) /\
  Json.get "version" (packageJson i) = Some "1.0" /\
  Json.get "license" (packageJson i) = Some "Apache-2.0" /\
  descriptor op = set_archiveSize n i /\
  archiveSize (descriptor op) = Some n /\
  promise op = Done (descriptor op) /\
  emitted "create-package" (started op ++ handled op) = [descriptor op].
Proof.
  intros Hz Hok Hclosed op. subst op.
  assert (Hfail : omap failureOf (signals run) = []).
  { destruct (omap failureOf (signals run)) as [|m rest] eqn:E; [done|].
    assert (Hm : m ∈ omap failureOf (signals run))
      by (rewrite E; apply elem_of_cons; by left).
    apply elem_of_failures in Hm. destruct (Hok m) as [H1 H2].
    destruct Hm; contradiction. }
  assert (Hd : descriptor (createPackage i run) = set_archiveSize n i).
  { by rewrite createPackage_descriptor, Hz, Hfail, Hclosed. }
  rewrite Hd, (createPackage_started i run zf Hz).
  rewrite (createPackage_promise i run zf Hz), Hfail, Hclosed.
  rewrite (createPackage_handled i run zf Hz), Hfail, Hclosed.
  repeat split.
  rewrite !emitted_app, emitted_signalActions. done.
Qed.

End WithPlatform.

End CreatePackageFacts.

(** ** Properties of [run] *)

Module RunFacts.

Import Descriptor Effects Package EffectFacts CreatePackageFacts.
Local Open Scope list_scope.

Section WithPlatform.

Context `{Platform}.

(** *** The incremental filter *)

Lemma checkZip_script w s :
  snd (checkZip w s) = if zipExists w s then s else delete_zipFile s.
Proof.
  unfold checkZip, zipExists, pathExists, truthy.
  destruct (zipFile s) as [z|]; [|done]. cbn.
  by destruct (String.eqb z "").
Qed.

Lemma checkZip_calls w s :
  fst (checkZip w s) = if truthy (zipFile s) then [PathExists (str (zipFile s))] else [].
Proof. unfold checkZip. by destruct (truthy (zipFile s)). Qed.

Lemma zipExists_truthy w s : zipExists w s = true -> truthy (zipFile s) = true.
Proof.
  unfold zipExists, pathExists, truthy. destruct (zipFile s) as [z|]; [|done].
  by intros [? _]%andb_prop.
Qed.

Lemma checked_kept w (scripts : list ActionInfo) :
  filter (fun s => truthy (zipFile s) = true) ((fun s => snd (checkZip w s)) <$> scripts)
  = filter (fun s => zipExists w s = true) scripts.
Proof.
  induction scripts as [|s scripts IH]; [done|].
  rewrite fmap_cons, !filter_cons, IH, checkZip_script.
  destruct (zipExists w s) eqn:E.
  - rewrite (zipExists_truthy w s E). by rewrite !decide_True.
  - cbn. by rewrite !decide_False.
Qed.

Lemma checked_left w (scripts : list ActionInfo) :
  filter (fun s => truthy (zipFile s) = false) ((fun s => snd (checkZip w s)) <$> scripts)
  = delete_zipFile <$> filter (fun s => zipExists w s = false) scripts.
Proof.
  induction scripts as [|s scripts IH]; [done|].
  rewrite fmap_cons, !filter_cons, IH, checkZip_script.
  destruct (zipExists w s) eqn:E.
  - rewrite (zipExists_truthy w s E). by rewrite !decide_False.
  - cbn. by rewrite !decide_True.
Qed.

Lemma settle_all_fmap_Done {A B} (f : A -> B) (l : list A) :
  settle_all ((fun x => Done (f x)) <$> l) = Done (f <$> l).
Proof. induction l as [|a l IH]; [done|]. cbn. by rewrite IH. Qed.

(** The filter in closed form: the checks, then one notification for
    each script whose archive exists; the others are left, without their
    [zipFile]. *)
Lemma filterModified_eq w (scripts : list ActionInfo) :
  filterModified w scripts =
  (All ((fun s => fst (checkZip w s)) <$> scripts)
     :: (Do <$> (Emit "ignore-package" <$> filter (fun s => zipExists w s = true) scripts)),
   Done (delete_zipFile <$> filter (fun s => zipExists w s = false) scripts)).
Proof.
  unfold filterModified, promise_all.
  rewrite <- !list_fmap_compose.
  change (snd ∘ _) with (fun s : ActionInfo => @Done ActionInfo (snd (checkZip w s))).
  change (fst ∘ _) with (fun s : ActionInfo => fst (checkZip w s)).
  rewrite settle_all_fmap_Done. cbn.
  by rewrite checked_kept, checked_left, app_nil_r, <- !list_fmap_compose.
Qed.

Lemma join_singletons {A B} (g : A -> B) (l : list A) :
  mjoin ((fun x => [g x]) <$> l) = g <$> l.
Proof. induction l as [|a l IH]; [done|]. cbn. f_equal. exact IH. Qed.

(** *** Bundling, archiving and writing back *)

Lemma createBundles_eq w cmd (scripts : list ActionInfo) :
  createBundles w cmd scripts =
  match bundler_run w (bundlerInput cmd scripts) with
  | Done stats =>
      (Do (BundlerRun (bundlerInput cmd scripts))
         :: (Do <$> (reported Error (errors stats) ++ reported Warn (warnings stats))),
       Done tt)
  | Thrown e => ([Do (BundlerRun (bundlerInput cmd scripts))], Thrown e)
  | Pending => ([Do (BundlerRun (bundlerInput cmd scripts))], Pending)
  end.
Proof.
  unfold createBundles, forEachLog, performAll, call, ret, bind.
  destruct (bundler_run w _) as [stats|e|]; [|done..].
  cbn. by rewrite app_nil_r, fmap_app.
Qed.

Lemma reported_bundling lvl items :
  Forall (fun a => bundling a = true) (reported lvl items).
Proof.
  destruct items as [l|]; [|constructor]. cbn.
  apply Forall_forall. intros a Ha.
  apply elem_of_lookup_imap in Ha as (i & item & -> & _). done.
Qed.

Lemma createBundles_bundling w cmd (scripts : list ActionInfo) :
  Forall (fun a => bundling a = true) (calls (fst (createBundles w cmd scripts))).
Proof.
  rewrite createBundles_eq.
  destruct (bundler_run w _) as [stats|e|]; cbn [fst];
    rewrite calls_cons_Do; (constructor; [done|]); [|constructor..].
  rewrite calls_Do. apply Forall_app. split; apply reported_bundling.
Qed.

Lemma diagnostics_reported lvl items :
  diagnostics (reported lvl items) = (fun item => (lvl, item)) <$> default [] items.
Proof.
  destruct items as [l|]; [|done]. cbn.
  generalize l at 1 as all. induction l as [|item l IH] using rev_ind; intros all; [done|].
  rewrite imap_app, fmap_app. unfold diagnostics in *. rewrite omap_app, IH.
  cbn. done.
Qed.

Lemma signalActions_afterBundling archiveName (sigs : list signal) :
  Forall (fun a => afterBundling a = true) (sigs ≫= signalActions archiveName).
Proof.
  induction sigs as [|sig sigs IH]; [constructor|].
  cbn. apply Forall_app. split; [|exact IH].
  destruct sig as [n|m|m]; cbn; [|by repeat constructor..].
  unfold tick. cbn. destruct (String.eqb n ""); by repeat constructor.
Qed.

(** Every call of [createPackage] belongs to the archiving of its script. *)
Lemma createPackage_afterBundling i run :
  Forall (fun a => afterBundling a = true)
         (started (createPackage i run) ++ handled (createPackage i run)).
Proof.
  destruct (zipFile i) as [zf|] eqn:Hz.
  - rewrite (createPackage_started i run zf Hz), (createPackage_handled i run zf Hz).
    repeat (apply Forall_app; split); [by repeat constructor | |].
    + apply signalActions_afterBundling.
    + destruct (closed run), (omap failureOf (signals run)); by repeat constructor.
  - unfold createPackage. rewrite Hz. constructor.
Qed.

Lemma archiveAndPersist_trace w (scripts : list ActionInfo) :
  let ops := packageOps w scripts in
  fst (archiveAndPersist w scripts) =
  (Do <$> (ops ≫= started)) ++
  All (handled <$> ops) ::
  match settle_all (promise <$> ops) with
  | Done _ => [All ((fun op => [WriteJson (infoFile (descriptor op)) (descriptor op)]) <$> ops)]
  | _ => []
  end.
Proof.
  intros ops. unfold archiveAndPersist, performAll, promise_all, ret, bind.
  fold ops. rewrite <- !list_fmap_compose.
  change (fst ∘ (fun op => (handled op, promise op))) with handled.
  change (snd ∘ (fun op => (handled op, promise op))) with promise.
  cbn. destruct (settle_all (promise <$> ops)) as [ds|e|]; [|done..].
  cbn. by destruct (settle_all _).
Qed.

Lemma archiveAndPersist_outcome w (scripts : list ActionInfo) :
  let ops := packageOps w scripts in
  snd (archiveAndPersist w scripts) =
  match settle_all (promise <$> ops) with
  | Done _ =>
      match settle_all
              ((fun op => write_json w (infoFile (descriptor op)) (descriptor op)) <$> ops) with
      | Done _ => Done tt
      | Thrown e => Thrown e
      | Pending => Pending
      end
  | Thrown e => Thrown e
  | Pending => Pending
  end.
Proof.
  intros ops. unfold archiveAndPersist, performAll, promise_all, ret, bind.
  fold ops. rewrite <- !list_fmap_compose.
  change (snd ∘ (fun op => (handled op, promise op))) with promise.
  cbn. destruct (settle_all (promise <$> ops)) as [ds|e|]; [|done..].
  cbn. by destruct (settle_all _).
Qed.

Lemma archiveAndPersist_calls w (scripts : list ActionInfo) :
  let ops := packageOps w scripts in
  calls (fst (archiveAndPersist w scripts)) =
  (ops ≫= started) ++ (ops ≫= handled) ++
  match settle_all (promise <$> ops) with
  | Done _ => (fun op => WriteJson (infoFile (descriptor op)) (descriptor op)) <$> ops
  | _ => []
  end.
Proof.
  intros ops. rewrite archiveAndPersist_trace. fold ops.
  rewrite calls_app, calls_Do, calls_cons_All. f_equal.
  assert (Hj : forall (l : list PackageOp), mjoin (handled <$> l) = l ≫= handled).
  { induction l as [|op l IH]; [done|]. cbn. f_equal. exact IH. }
  rewrite Hj. f_equal.
  destruct (settle_all (promise <$> ops)); [|done..].
  rewrite calls_cons_All. cbn. by rewrite app_nil_r, join_singletons.
Qed.

Lemma archiveAndPersist_afterBundling w (scripts : list ActionInfo) :
  Forall (fun a => afterBundling a = true) (calls (fst (archiveAndPersist w scripts))).
Proof.
  rewrite archiveAndPersist_calls. cbn zeta.
  assert (Hops : forall op, op ∈ packageOps w scripts ->
            Forall (fun a => afterBundling a = true) (started op ++ handled op)).
  { intros op (s & -> & _)%list_elem_of_fmap. apply createPackage_afterBundling. }
  repeat (apply Forall_app; split).
  - apply Forall_forall. intros a (op & Ha & Hop)%list_elem_of_bind.
    pose proof (Hops op Hop) as Hall. rewrite Forall_forall in Hall.
    apply Hall, elem_of_app. by left.
  - apply Forall_forall. intros a (op & Ha & Hop)%list_elem_of_bind.
    pose proof (Hops op Hop) as Hall. rewrite Forall_forall in Hall.
    apply Hall, elem_of_app. by right.
  - destruct (settle_all _); [|constructor..].
    apply Forall_fmap, Forall_true. done.
Qed.

Lemma packageScripts_trace w cmd (scripts : list ActionInfo) :
  let derived := derive cmd <$> scripts in
  fst (packageScripts w cmd scripts) =
  Do (NewProgressBar (length derived * 2 * 5)) ::
  fst (createBundles w cmd derived) ++
  match snd (createBundles w cmd derived) with
  | Done _ => fst (archiveAndPersist w derived)
  | _ => []
  end.
Proof.
  intros derived. unfold packageScripts. fold derived.
  rewrite fst_bind. cbn [perform fst snd]. by rewrite fst_bind.
Qed.

Lemma packageScripts_outcome w cmd (scripts : list ActionInfo) :
  let derived := derive cmd <$> scripts in
  snd (packageScripts w cmd scripts) =
  match snd (createBundles w cmd derived) with
  | Done _ => snd (archiveAndPersist w derived)
  | Thrown e => Thrown e
  | Pending => Pending
  end.
Proof.
  intros derived. unfold packageScripts. fold derived.
  rewrite snd_bind. cbn [perform fst snd]. by rewrite snd_bind.
Qed.

Lemma diagnostics_app a1 a2 : diagnostics (a1 ++ a2) = diagnostics a1 ++ diagnostics a2.
Proof. apply omap_app. Qed.

Lemma preparing_diagnostics acts :
  Forall (fun a => preparing a = true) acts -> diagnostics acts = [].
Proof.
  induction 1 as [|a acts Ha _ IH]; [done|].
  cbn. unfold diagnostics in IH. rewrite IH. by destruct a.
Qed.

Lemma afterBundling_diagnostics acts :
  Forall (fun a => afterBundling a = true) acts -> diagnostics acts = [].
Proof.
  induction 1 as [|a acts Ha _ IH]; [done|].
  cbn. unfold diagnostics in IH. rewrite IH. by destruct a.
Qed.

Lemma bundling_written acts :
  Forall (fun a => bundling a = true) acts -> written acts = [].
Proof.
  induction 1 as [|a acts Ha _ IH]; [done|].
  cbn. unfold written in IH. rewrite IH. by destruct a.
Qed.

Lemma written_signalActions archiveName (sigs : list signal) :
  written (sigs ≫= signalActions archiveName) = [].
Proof.
  induction sigs as [|sig sigs IH]; [done|].
  rewrite bind_cons, written_app, IH, app_nil_r.
  destruct sig as [n|m|m]; [|done..].
  cbn. unfold tick. by destruct (String.eqb n "").
Qed.

Lemma createPackage_written i run :
  written (started (createPackage i run)) = [] /\
  written (handled (createPackage i run)) = [].
Proof.
  destruct (zipFile i) as [zf|] eqn:Hz.
  - rewrite (createPackage_started i run zf Hz), (createPackage_handled i run zf Hz).
    split; [done|]. rewrite written_app, written_signalActions.
    by destruct (closed run), (omap failureOf (signals run)).
  - unfold createPackage. by rewrite Hz.
Qed.

Lemma written_ops w (scripts : list ActionInfo) :
  written (packageOps w scripts ≫= started) = [] /\
  written (packageOps w scripts ≫= handled) = [].
Proof.
  unfold packageOps. induction scripts as [|s scripts [IH1 IH2]]; [done|].
  rewrite fmap_cons, !bind_cons, !written_app, IH1, IH2.
  destruct (createPackage_written s (archive_run w s)) as [-> ->]. done.
Qed.

Lemma written_WriteJson {A} (f : A -> option string) (g : A -> ActionInfo) (l : list A) :
  written ((fun x => WriteJson (f x) (g x)) <$> l) = (fun x => (f x, g x)) <$> l.
Proof. induction l as [|x l IH]; [done|]. cbn. f_equal. exact IH. Qed.

Lemma settle_all_fulfilled {A} (os : list (outcome A)) :
  Forall (fun o => exists a, o = Done a) os -> exists l, settle_all os = Done l.
Proof.
  induction 1 as [|o os [a ->] _ [l IH]]; [by exists []|].
  exists (a :: l). cbn. by rewrite IH.
Qed.

(** The descriptor of an archiving operation keeps the [infoFile] it had. *)
Lemma createPackage_infoFile i run :
  infoFile (descriptor (createPackage i run)) = infoFile i.
Proof.
  rewrite createPackage_descriptor.
  by destruct (zipFile i), (omap failureOf (signals run)), (closed run).
Qed.

(** *** The phases of [run] *)

Section Run.

Variable flattenDependencies : list ActionInfo -> list ActionInfo.

Abbreviation loadDescriptors := (loadDescriptors flattenDependencies).
Abbreviation workingSet := (workingSet flattenDependencies).
Abbreviation run := (run flattenDependencies).

Lemma loadDescriptors_loading w cmd :
  Forall (fun a => loading a = true) (calls (fst (loadDescriptors w cmd))).
Proof.
  unfold Package.loadDescriptors, init, call, perform, promise_all, ret, bind.
  destruct (super_init w) as [[]|e|]; cbn; [|by repeat constructor..].
  destruct (build_run w _ _) as [[]|e|]; cbn; [|by repeat constructor..].
  set (reads := _ <$> glob_sync w _).
  assert (Hreads : Forall (fun a => loading a = true) (mjoin (fst <$> reads))).
  { subst reads. rewrite <- list_fmap_compose.
    change (fst ∘ _) with (fun f : string => [ReadJSON f]).
    rewrite join_singletons. apply Forall_fmap, Forall_true. done. }
  destruct (settle_all (snd <$> reads)) as [infos|e|]; cbn;
    repeat (constructor; [done|]); rewrite ?app_nil_r;
    first [exact Hreads | apply Forall_app; split; [exact Hreads | constructor]].
Qed.

Lemma loadDescriptors_cmd w cmd t cmd' scripts :
  loadDescriptors w cmd = (t, Done (cmd', scripts)) ->
  cmd' = withTarget (path_resolve [directory cmd; _target cmd]) cmd.
Proof.
  unfold Package.loadDescriptors, init, call, perform, promise_all, ret, bind.
  destruct (super_init w) as [[]|e|]; cbn; [|done..].
  destruct (build_run w _ _) as [[]|e|]; cbn; [|done..].
  destruct (settle_all _) as [infos|e|]; cbn; [|done..].
  by intros [= _ <- _].
Qed.

Lemma filter_calls_preparing w (scripts : list ActionInfo) :
  Forall (fun a => preparing a = true) (calls (fst (filterModified w scripts))).
Proof.
  rewrite filterModified_eq. cbn [fst]. rewrite calls_cons_All, calls_Do.
  apply Forall_app. split.
  - induction scripts as [|s scripts IH]; [constructor|].
    cbn. apply Forall_app. split; [|exact IH].
    rewrite checkZip_calls. destruct (truthy (zipFile s)); by repeat constructor.
  - apply Forall_fmap, Forall_true. done.
Qed.

(** The working set, once the descriptors are loaded. *)
Lemma workingSet_loaded w cmd t0 cmd' scripts :
  loadDescriptors w cmd = (t0, Done (cmd', scripts)) ->
  workingSet w cmd =
  if _onlyModified cmd
  then (t0 ++ fst (filterModified w scripts),
        Done (cmd', delete_zipFile <$> filter (fun s => zipExists w s = false) scripts))
  else (t0, Done (cmd', scripts)).
Proof.
  intros Hload. unfold Package.workingSet.
  rewrite (bind_Done _ _ _ _ Hload).
  pose proof (loadDescriptors_cmd _ _ _ _ _ Hload) as ->. cbn [_onlyModified withTarget].
  destruct (_onlyModified cmd).
  - rewrite filterModified_eq. cbn. by rewrite app_nil_r.
  - cbn. by rewrite app_nil_r.
Qed.

Lemma workingSet_trace w cmd :
  fst (workingSet w cmd) =
  fst (loadDescriptors w cmd) ++
  match snd (loadDescriptors w cmd) with
  | Done (_, scripts) => if _onlyModified cmd then fst (filterModified w scripts) else []
  | _ => []
  end.
Proof.
  destruct (loadDescriptors w cmd) as [t0 [[cmd' scripts]|e|]] eqn:Hload.
  - rewrite (workingSet_loaded _ _ _ _ _ Hload). by destruct (_onlyModified cmd); cbn; rewrite ?app_nil_r.
  - unfold Package.workingSet. rewrite Hload. cbn. by rewrite app_nil_r.
  - unfold Package.workingSet. rewrite Hload. cbn. by rewrite app_nil_r.
Qed.

Lemma workingSet_preparing w cmd :
  Forall (fun a => preparing a = true) (calls (fst (workingSet w cmd))).
Proof.
  rewrite workingSet_trace, calls_app. apply Forall_app. split.
  - eapply Forall_impl; [apply loadDescriptors_loading|].
    intros a Ha. by destruct a.
  - destruct (snd (loadDescriptors w cmd)) as [[cmd' scripts]|e|]; [|constructor..].
    destruct (_onlyModified cmd); [apply filter_calls_preparing | constructor].
Qed.

Lemma run_trace w cmd :
  fst (run w cmd) =
  fst (workingSet w cmd) ++
  match snd (workingSet w cmd) with
  | Done (cmd', scripts) =>
      fst (packaging w cmd' scripts) ++
      match snd (packaging w cmd' scripts) with
      | Done _ => [Do (Log Info "✅  packaging completed")]
      | _ => []
      end
  | _ => []
  end.
Proof.
  unfold Package.run. rewrite fst_bind.
  destruct (snd (workingSet w cmd)) as [[cmd' scripts]|e|]; [|done..].
  rewrite fst_bind.
  by destruct (snd (packaging w cmd' scripts)).
Qed.

Lemma run_outcome w cmd :
  snd (run w cmd) =
  match snd (workingSet w cmd) with
  | Done (cmd', scripts) =>
      match snd (packaging w cmd' scripts) with
      | Done _ => Done cmd'
      | Thrown e => Thrown e
      | Pending => Pending
      end
  | Thrown e => Thrown e
  | Pending => Pending
  end.
Proof.
  unfold Package.run. rewrite snd_bind.
  destruct (snd (workingSet w cmd)) as [[cmd' scripts]|e|]; [|done..].
  rewrite snd_bind.
  by destruct (snd (packaging w cmd' scripts)).
Qed.

Lemma packaging_calls w cmd (scripts : list ActionInfo) :
  Forall (fun a => packagingCall a = true) (calls (fst (packaging w cmd scripts))).
Proof.
  unfold packaging. destruct scripts as [|s scripts]; [constructor|].
  rewrite packageScripts_trace. cbn zeta.
  rewrite calls_cons_Do. constructor; [done|].
  rewrite calls_app. apply Forall_app. split.
  - eapply Forall_impl; [apply createBundles_bundling|].
    intros a Ha. unfold packagingCall. rewrite Ha. by destruct a.
  - destruct (snd (createBundles _ _ _)) as [[]|e|]; [|constructor..].
    eapply Forall_impl; [apply archiveAndPersist_afterBundling|].
    intros a Ha. unfold packagingCall. rewrite Ha, orb_true_r. by destruct a.
Qed.

Lemma preparing_written acts :
  Forall (fun a => preparing a = true) acts -> written acts = [].
Proof.
  induction 1 as [|a acts Ha _ IH]; [done|].
  cbn. unfold written in IH. rewrite IH. by destruct a.
Qed.

Lemma loading_emitted event acts :
  Forall (fun a => loading a = true) acts -> emitted event acts = [].
Proof.
  induction 1 as [|a acts Ha _ IH]; [done|].
  cbn. unfold emitted in IH. rewrite IH. by destruct a.
Qed.

Lemma packagingCall_ignored acts :
  Forall (fun a => packagingCall a = true) acts -> emitted "ignore-package" acts = [].
Proof.
  induction 1 as [|a acts Ha _ IH]; [done|].
  cbn. unfold emitted in IH. rewrite IH. destruct a; try done.
  cbn in Ha. apply String.eqb_eq in Ha as ->. done.
Qed.

Lemma filterModified_ignored w (scripts : list ActionInfo) :
  emitted "ignore-package" (calls (fst (filterModified w scripts)))
  = filter (fun s => zipExists w s = true) scripts.
Proof.
  rewrite filterModified_eq. cbn [fst]. rewrite calls_cons_All, calls_Do, emitted_app.
  rewrite emitted_Emit.
  assert (Hchecks : emitted "ignore-package"
                      (mjoin ((fun s => fst (checkZip w s)) <$> scripts)) = []).
  { induction scripts as [|s scripts IH]; [done|].
    rewrite fmap_cons, join_cons, emitted_app, IH, checkZip_calls.
    by destruct (truthy (zipFile s)). }
  by rewrite Hchecks.
Qed.

Lemma packaging_ignored w cmd (scripts : list ActionInfo) :
  emitted "ignore-package"
    (calls (fst (packaging w cmd scripts) ++
            match snd (packaging w cmd scripts) with
            | Done _ => [Do (Log Info "✅  packaging completed")]
            | _ => []
            end)) = [].
Proof.
  rewrite calls_app, emitted_app, (packagingCall_ignored _ (packaging_calls _ _ _)).
  by destruct (snd (packaging w cmd scripts)).
Qed.

(** The [ignore-package] notifications of a whole run are those of the
    incremental filter. *)
Lemma run_ignored w cmd :
  emitted "ignore-package" (calls (fst (run w cmd))) =
  match snd (loadDescriptors w cmd) with
  | Done (_, scripts) =>
      if _onlyModified cmd then filter (fun s => zipExists w s = true) scripts else []
  | _ => []
  end.
Proof.
  rewrite run_trace, calls_app, emitted_app.
  pose proof (loadDescriptors_loading w cmd) as Hloading.
  destruct (loadDescriptors w cmd) as [t0 [[cmd' scripts]|e|]] eqn:Hload;
    cbn [fst snd] in *.
  - rewrite (workingSet_loaded _ _ _ _ _ Hload).
    destruct (_onlyModified cmd); cbn [fst snd];
      rewrite packaging_ignored, app_nil_r.
    + rewrite calls_app, emitted_app, filterModified_ignored.
      by rewrite (loading_emitted _ _ Hloading).
    + by rewrite (loading_emitted _ _ Hloading).
  - unfold Package.workingSet. rewrite Hload. cbn [bind fst snd].
    by rewrite (loading_emitted _ _ Hloading).
  - unfold Package.workingSet. rewrite Hload. cbn [bind fst snd].
    by rewrite (loading_emitted _ _ Hloading).
Qed.

(** C5: when no script is left after the incremental filter, [run] only
    logs its completion and is fulfilled: the bundler is not called, no
    archive is written, no descriptor file is written, and nothing is
    logged as a warning or an error. *)
Theorem run_nothing_to_package (w : World) (cmd cmd' : PackageCommand) (t : trace) :
  workingSet w cmd = (t, Done (cmd', [])) ->
  run w cmd = (t ++ [Do (Log Info "✅  packaging completed")], Done cmd') /\
  without bundling (calls (fst (run w cmd))) /\
  without archiving (calls (fst (run w cmd))) /\
  written (calls (fst (run w cmd))) = [] /\
  without alarming (calls (fst (run w cmd))).
Proof.
  intros Hws.
  assert (Hrun : run w cmd = (t ++ [Do (Log Info "✅  packaging completed")], Done cmd')).
  { rewrite (surjective_pairing (run w cmd)), run_trace, run_outcome, Hws. done. }
  pose proof (workingSet_preparing w cmd) as Hprep. rewrite Hws in Hprep. cbn [fst] in Hprep.
  rewrite Hrun. cbn [fst]. rewrite calls_app, calls_cons_Do.
  split; [done|].
  split; [|split; [|split]].
  - apply without_app. split; [|by repeat constructor].
    eapply Forall_impl; [exact Hprep|]. intros a Ha. by destruct a.
  - apply without_app. split; [|by repeat constructor].
    eapply Forall_impl; [exact Hprep|]. intros a Ha. by destruct a.
  - by rewrite written_app, (preparing_written _ Hprep).
  - apply without_app. split; [|by repeat constructor].
    eapply Forall_impl; [exact Hprep|]. intros a Ha. by destruct a.
Qed.

(** C4: in incremental mode, the descriptors whose [zipFile] exists on
    disk are left out of the working set, and the [ignore-package]
    notifications of the run are exactly these descriptors, one for each;
    the descriptors whose [zipFile] does not exist stay in the working
    set, without their [zipFile]. *)
Theorem run_incremental_filter (w : World) (cmd cmd' : PackageCommand) (t0 : trace) (scripts : list ActionInfo) :
  _onlyModified cmd = true ->
  loadDescriptors w cmd = (t0, Done (cmd', scripts)) ->
  let working := delete_zipFile <$> filter (fun s => zipExists w s = false) scripts in
  snd (workingSet w cmd) = Done (cmd', working) /\
  emitted "ignore-package" (calls (fst (run w cmd)))
    = filter (fun s => zipExists w s = true) scripts /\
  (forall s, s ∈ scripts -> zipExists w s = true -> s ∉ working) /\
  (forall s, s ∈ scripts -> zipExists w s = false ->
             delete_zipFile s ∈ working /\ zipFile (delete_zipFile s) = None).
Proof.
  intros Hmode Hload working.
  split; [|split; [|split]].
  - by rewrite (workingSet_loaded w cmd t0 cmd' scripts Hload), Hmode.
  - by rewrite run_ignored, Hload, Hmode.
  - intros s _ Hs (s' & Heq & _)%list_elem_of_fmap.
    apply zipExists_truthy in Hs. rewrite Heq in Hs. done.
  - intros s Hs Hno. split; [|done].
    apply list_elem_of_fmap. exists s. split; [done|].
    apply list_elem_of_filter. done.
Qed.

(** Every existence check of a run is the check of a truthy [zipFile]
    by the incremental filter. *)
Lemma run_pathExists w cmd p :
  PathExists p ∈ calls (fst (run w cmd)) ->
  _onlyModified cmd = true /\
  exists t0 cmd' scripts s,
    loadDescriptors w cmd = (t0, Done (cmd', scripts)) /\
    s ∈ scripts /\ truthy (zipFile s) = true /\ zipFile s = Some p.
Proof.
  rewrite run_trace, calls_app, elem_of_app. intros [Hin | Hin].
  - rewrite workingSet_trace, calls_app, elem_of_app in Hin.
    destruct Hin as [Hin | Hin].
    + pose proof (loadDescriptors_loading w cmd) as Hl.
      rewrite Forall_forall in Hl. by apply Hl in Hin.
    + destruct (loadDescriptors w cmd) as [t0 [[cmd' scripts]|e|]] eqn:Hload;
        cbn [snd] in Hin; [|by apply elem_of_nil in Hin..].
      destruct (_onlyModified cmd); [|by apply elem_of_nil in Hin].
      split; [done|]. exists t0, cmd', scripts.
      rewrite filterModified_eq in Hin. cbn [fst] in Hin.
      rewrite calls_cons_All, calls_Do, elem_of_app in Hin.
      destruct Hin as [Hin | Hin].
      * apply list_elem_of_join in Hin as (l & Hp & Hl).
        apply list_elem_of_fmap in Hl as (s & -> & Hs).
        rewrite checkZip_calls in Hp. exists s.
        destruct (truthy (zipFile s)) eqn:Ht; [|by apply elem_of_nil in Hp].
        apply list_elem_of_singleton in Hp. injection Hp as ->.
        repeat split; [done|]. by destruct (zipFile s).
      * apply list_elem_of_fmap in Hin as (d & Hd & _). done.
  - destruct (snd (workingSet w cmd)) as [[cmd' scripts]|e|];
      [|by apply elem_of_nil in Hin..].
    rewrite calls_app, elem_of_app in Hin. destruct Hin as [Hin | Hin].
    + pose proof (packaging_calls w cmd' scripts) as Hp.
      rewrite Forall_forall in Hp. by apply Hp in Hin.
    + destruct (snd (packaging w cmd' scripts)); [|by apply elem_of_nil in Hin..].
      by apply list_elem_of_singleton in Hin.
Qed.

(** C9: in incremental mode a descriptor without [zipFile], or with a
    falsy one, stays in the working set, is never the subject of an
    [ignore-package] notification, and no existence check is made for
    it: the existence checks of the run are those of truthy [zipFile]s. *)
Theorem run_incremental_no_zipFile (w : World) (cmd cmd' : PackageCommand) (t0 : trace) (scripts : list ActionInfo) (s : ActionInfo) :
  _onlyModified cmd = true ->
  loadDescriptors w cmd = (t0, Done (cmd', scripts)) ->
  s ∈ scripts ->
  truthy (zipFile s) = false ->
  (exists working, snd (workingSet w cmd) = Done (cmd', working) /\
                   delete_zipFile s ∈ working) /\
  (forall d, d ∈ emitted "ignore-package" (calls (fst (run w cmd))) ->
             truthy (zipFile d) = true) /\
  (s ∉ emitted "ignore-package" (calls (fst (run w cmd)))) /\
  (delete_zipFile s ∉ emitted "ignore-package" (calls (fst (run w cmd)))) /\
  fst (checkZip w s) = [] /\
  (forall p, PathExists p ∈ calls (fst (run w cmd)) ->
             exists s', s' ∈ scripts /\ truthy (zipFile s') = true /\ zipFile s' = Some p).
Proof.
  intros Hmode Hload Hs Hfalsy.
  assert (Hno : zipExists w s = false).
  { destruct (zipExists w s) eqn:E; [|done].
    apply zipExists_truthy in E. congruence. }
  assert (Hemitted : forall d, d ∈ emitted "ignore-package" (calls (fst (run w cmd))) ->
                               truthy (zipFile d) = true).
  { intros d. rewrite run_ignored, Hload, Hmode. cbn [snd].
    intros [Hd _]%list_elem_of_filter. by apply (zipExists_truthy w). }
  split; [|split; [|split; [|split; [|split]]]].
  - eexists. split.
    + by rewrite (workingSet_loaded w cmd t0 cmd' scripts Hload), Hmode.
    + apply list_elem_of_fmap. exists s. split; [done|].
      by apply list_elem_of_filter.
  - exact Hemitted.
  - intros Hin. apply Hemitted in Hin. congruence.
  - intros Hin. apply Hemitted in Hin. done.
  - by rewrite checkZip_calls, Hfalsy.
  - intros p Hp. apply run_pathExists in Hp as (_ & t1 & cmd1 & scripts1 & s' & Hload' & Hin).
    rewrite Hload in Hload'. injection Hload' as <- <- <-. eauto.
Qed.

(** A run falls into a part without any archiving call followed by a part
    without any bundling call. *)
Lemma run_phases w cmd :
  exists tA tB,
    fst (run w cmd) = tA ++ tB /\
    without archiving (calls tA) /\
    without bundling (calls tB).
Proof.
  pose proof (workingSet_preparing w cmd) as Hprep.
  assert (Hws : without archiving (calls (fst (workingSet w cmd)))).
  { eapply Forall_impl; [exact Hprep|]. intros a Ha. by destruct a. }
  rewrite run_trace.
  destruct (snd (workingSet w cmd)) as [[cmd' scripts]|e|].
  2,3: exists (fst (workingSet w cmd)), []; split; [done|]; split; [done|constructor].
  destruct scripts as [|s scripts].
  - exists (fst (workingSet w cmd)), [Do (Log Info "✅  packaging completed")].
    split; [done|]. split; [done|]. by repeat constructor.
  - unfold packaging at 1. rewrite packageScripts_trace. cbn zeta.
    set (derived := derive cmd' <$> s :: scripts).
    set (tail := match snd (packaging w cmd' (s :: scripts)) with
                 | Done _ => [Do (Log Info "✅  packaging completed")]
                 | _ => []
                 end).
    exists (fst (workingSet w cmd) ++
            Do (NewProgressBar (length derived * 2 * 5)) :: fst (createBundles w cmd' derived)),
           (match snd (createBundles w cmd' derived) with
            | Done _ => fst (archiveAndPersist w derived)
            | _ => []
            end ++ tail).
    split; [|split].
    + rewrite <- !app_assoc. f_equal. rewrite <- !app_comm_cons. f_equal.
      by rewrite <- app_assoc.
    + rewrite calls_app. apply without_app. split; [done|].
      rewrite calls_cons_Do. constructor; [done|].
      eapply Forall_impl; [apply createBundles_bundling|].
      intros a Ha. by destruct a.
    + rewrite calls_app. apply without_app. split.
      * destruct (snd (createBundles w cmd' derived)) as [[]|e|]; [|constructor..].
        eapply Forall_impl; [apply archiveAndPersist_afterBundling|].
        intros a Ha. by destruct a as [| | | | | | [] | | | | | | | | | |].
      * subst tail. destruct (snd (packaging _ _ _)); by repeat constructor.
Qed.


(** A run whose bundler returns: the calls up to the working set, the
    bundling with its diagnostics, then the archiving and writing back. *)
Lemma run_bundled w cmd cmd' t (scripts : list ActionInfo) stats :
  workingSet w cmd = (t, Done (cmd', scripts)) ->
  scripts <> [] ->
  bundler_run w (bundlerInput cmd' (derive cmd' <$> scripts)) = Done stats ->
  let derived := derive cmd' <$> scripts in
  fst (run w cmd) =
    (t ++ Do (NewProgressBar (length derived * 2 * 5))
       :: Do (BundlerRun (bundlerInput cmd' derived))
       :: (Do <$> (reported Error (errors stats) ++ reported Warn (warnings stats))))
    ++ fst (archiveAndPersist w derived)
    ++ match snd (archiveAndPersist w derived) with
       | Done _ => [Do (Log Info "✅  packaging completed")]
       | _ => []
       end /\
  snd (run w cmd) =
    match snd (archiveAndPersist w derived) with
    | Done _ => Done cmd'
    | Thrown e => Thrown e
    | Pending => Pending
    end.
Proof.
  intros Hws Hne Hb. cbn zeta.
  set (derived := derive cmd' <$> scripts) in *.
  assert (Hpkg : packaging w cmd' scripts = packageScripts w cmd' scripts)
    by (by destruct scripts).
  pose proof (createBundles_eq w cmd' derived) as Hcb. rewrite Hb in Hcb.
  split.
  - rewrite run_trace, Hws. cbn [fst snd]. rewrite Hpkg.
    rewrite packageScripts_trace, packageScripts_outcome. cbn zeta. fold derived.
    rewrite Hcb. cbn [fst snd].
    rewrite <- !app_assoc. f_equal.
    rewrite <- !app_comm_cons. do 2 f_equal.
    by rewrite <- !app_assoc.
  - rewrite run_outcome, Hws. cbn [snd]. rewrite Hpkg.
    rewrite packageScripts_outcome. cbn zeta. fold derived.
    rewrite Hcb. cbn [snd]. by destruct (snd (archiveAndPersist w derived)).
Qed.

(** The archive-writing calls in a list of calls. *)
Lemma archiveCalls_app l1 l2 :
  archiveCalls (l1 ++ l2) = archiveCalls l1 ++ archiveCalls l2.
Proof. apply filter_app. Qed.

Lemma archiveCalls_nil l :
  Forall (fun a => archiving a = false) l -> archiveCalls l = [].
Proof.
  unfold archiveCalls. induction 1 as [|a l Ha _ IH]; [done|].
  rewrite filter_cons_False; [done|]. by rewrite Ha.
Qed.

Lemma archiveCalls_preparing l :
  Forall (fun a => preparing a = true) l -> archiveCalls l = [].
Proof.
  intros Hl. apply archiveCalls_nil. eapply Forall_impl; [exact Hl|].
  by intros [].
Qed.

Lemma archiveCalls_bundling l :
  Forall (fun a => bundling a = true) l -> archiveCalls l = [].
Proof.
  intros Hl. apply archiveCalls_nil. eapply Forall_impl; [exact Hl|].
  by intros [].
Qed.

(** The handlers of [createPackage] write nothing to the archive. *)
Lemma archiveCalls_handled i run :
  archiveCalls (handled (createPackage i run)) = [].
Proof.
  apply archiveCalls_nil.
  destruct (zipFile i) as [zf|] eqn:Hz.
  - rewrite (createPackage_handled i run zf Hz). apply Forall_app. split.
    + induction (signals run) as [|sig sigs IH]; [constructor|].
      cbn. apply Forall_app. split; [|exact IH].
      destruct sig; repeat constructor.
    + destruct (closed run), (omap failureOf (signals run)); repeat constructor.
  - unfold createPackage. rewrite Hz. constructor.
Qed.

(** What a [createPackage] call for a derived script writes at once. *)
Lemma archiveCalls_started (cmd : PackageCommand) (s : ActionInfo) (run : ArchiveRun) :
  archiveCalls (started (createPackage (derive cmd s) run)) =
  [CreateWriteStream
     (path_resolve [_target cmd;
                    if isStatic s then "" else path_dirname (main s);
                    path_basename_ext (main s) ".js" +:+ ".zip"]);
   ArchiveAppend (Json.stringify "  " (packageJson (derive cmd s))) "package.json";
   ArchiveFile
     (Some (path_resolve [_target cmd; path_basename_ext (main s) ".js" +:+ ".bundle.js"]))
     (path_basename (main s));
   ArchiveFinalize].
Proof.
  by rewrite (createPackage_started (derive cmd s) run _ eq_refl).
Qed.

Lemma archiveCalls_ops_handled w (scripts : list ActionInfo) :
  archiveCalls (packageOps w scripts ≫= handled) = [].
Proof.
  unfold packageOps. induction scripts as [|s scripts IH]; [done|].
  rewrite fmap_cons, bind_cons, archiveCalls_app, archiveCalls_handled.
  exact IH.
Qed.

Lemma archiveCalls_ops_started w (cmd : PackageCommand) (scripts : list ActionInfo) :
  archiveCalls (packageOps w (derive cmd <$> scripts) ≫= started) =
  scripts ≫= (fun s =>
    [CreateWriteStream
       (path_resolve [_target cmd;
                      if isStatic s then "" else path_dirname (main s);
                      path_basename_ext (main s) ".js" +:+ ".zip"]);
     ArchiveAppend (Json.stringify "  " (packageJson (derive cmd s))) "package.json";
     ArchiveFile
       (Some (path_resolve [_target cmd; path_basename_ext (main s) ".js" +:+ ".bundle.js"]))
       (path_basename (main s));
     ArchiveFinalize]).
Proof.
  unfold packageOps. induction scripts as [|s scripts IH]; [done|].
  rewrite !fmap_cons, !bind_cons, archiveCalls_app, archiveCalls_started.
  by rewrite IH.
Qed.

Lemma archiveCalls_WriteJson (ops : list PackageOp) :
  archiveCalls ((fun op => WriteJson (infoFile (descriptor op)) (descriptor op)) <$> ops) = [].
Proof. apply archiveCalls_nil, Forall_fmap, Forall_true. done. Qed.

(** C6: when the bundler returns errors or warnings, each of them is
    handed to the logger exactly once, and the archive of every remaining
    script is written all the same: script after script, its write stream
    is created at its derived [zipFile], the manifest and the bundle are
    stored and the archive is finalized, and nothing else is written to an
    archive. Every [createPackage] is started, and the run settles as
    the archiving and the writing back alone decide: it completes when
    these do. *)
Theorem run_bundler_diagnostics (w : World) (cmd cmd' : PackageCommand) (t : trace) (scripts : list ActionInfo) (stats : Stats) :
  workingSet w cmd = (t, Done (cmd', scripts)) ->
  scripts <> [] ->
  bundler_run w (bundlerInput cmd' (derive cmd' <$> scripts)) = Done stats ->
  let derived := derive cmd' <$> scripts in
  let ops := packageOps w derived in
  diagnostics (calls (fst (run w cmd))) =
    ((fun d => (Error, d)) <$> default [] (errors stats)) ++
    ((fun d => (Warn, d)) <$> default [] (warnings stats)) /\
  archiveCalls (calls (fst (run w cmd))) =
    scripts ≫= (fun s =>
      [CreateWriteStream
         (path_resolve [_target cmd';
                        if isStatic s then "" else path_dirname (main s);
                        path_basename_ext (main s) ".js" +:+ ".zip"]);
       ArchiveAppend (Json.stringify "  " (packageJson (derive cmd' s))) "package.json";
       ArchiveFile
         (Some (path_resolve [_target cmd'; path_basename_ext (main s) ".js" +:+ ".bundle.js"]))
         (path_basename (main s));
       ArchiveFinalize]) /\
  (exists t1 t2,
     fst (run w cmd) = t1 ++ (Do <$> (ops ≫= started)) ++ All (handled <$> ops) :: t2) /\
  snd (run w cmd) =
    match snd (archiveAndPersist w derived) with
    | Done _ => Done cmd'
    | Thrown e => Thrown e
    | Pending => Pending
    end /\
  (Forall (fun op => exists d, promise op = Done d) ops ->
   Forall (fun op => write_json w (infoFile (descriptor op)) (descriptor op) = Done tt) ops ->
   snd (run w cmd) = Done cmd').
Proof.
  intros Hws Hne Hb derived ops.
  destruct (run_bundled w cmd cmd' t scripts stats Hws Hne Hb) as [Htrace Hout].
  fold derived in Htrace, Hout, Hb.
  pose proof (workingSet_preparing w cmd) as Hprep. rewrite Hws in Hprep. cbn [fst] in Hprep.
  split; [|split; [|split; [|split]]].
  - rewrite Htrace, !calls_app, !diagnostics_app.
    rewrite (afterBundling_diagnostics _ (archiveAndPersist_afterBundling w derived)).
    rewrite !calls_cons_Do, calls_Do.
    rewrite (preparing_diagnostics _ Hprep). cbn [app].
    change (diagnostics (?a :: ?b :: ?l)) with (diagnostics l).
    rewrite diagnostics_app, !diagnostics_reported.
    destruct (snd (archiveAndPersist w derived)); by rewrite ?app_nil_r.
  - rewrite Htrace, !calls_app, !archiveCalls_app.
    rewrite !calls_cons_Do, calls_Do, archiveAndPersist_calls. cbn zeta. fold ops.
    rewrite !archiveCalls_app, (archiveCalls_preparing _ Hprep). cbn [app].
    assert (Hbundle : forall a b l, Forall (fun c => bundling c = true) l ->
              archiveCalls (NewProgressBar a :: BundlerRun b :: l) = []).
    { intros a b l Hl. apply archiveCalls_nil. do 2 (constructor; [done|]).
      eapply Forall_impl; [exact Hl|]. by intros []. }
    rewrite Hbundle
      by (apply Forall_app; split; apply reported_bundling).
    subst ops derived.
    rewrite archiveCalls_ops_started, archiveCalls_ops_handled. cbn [app].
    destruct (settle_all _), (snd (archiveAndPersist _ _));
      rewrite ?archiveCalls_WriteJson; cbn; by rewrite ?app_nil_r.
  - rewrite Htrace, archiveAndPersist_trace. cbn zeta. fold ops.
    eexists _, (_ ++ _). rewrite <- (app_assoc (Do <$> _)), <- app_comm_cons.
    reflexivity.
  - exact Hout.
  - intros Hops Hwrites. rewrite Hout, archiveAndPersist_outcome. cbn zeta. fold ops.
    destruct (settle_all_fulfilled (promise <$> ops)) as [ds ->].
    { apply Forall_fmap. exact Hops. }
    destruct (settle_all_fulfilled
                ((fun op => write_json w (infoFile (descriptor op)) (descriptor op)) <$> ops))
      as [us ->]; [|done].
    apply Forall_fmap. eapply Forall_impl; [exact Hwrites|]. cbn. eauto.
Qed.

(** C8 (amended): when a run completes, the descriptor files written are
    exactly those of the scripts left in the working set, each written in
    its final state to its derived [infoFile], a path under the target
    directory named after the entry script. *)
Theorem run_persists_working_set (w : World) (cmd cmd' c : PackageCommand) (t : trace) (scripts : list ActionInfo) :
  workingSet w cmd = (t, Done (cmd', scripts)) ->
  snd (run w cmd) = Done c ->
  written (calls (fst (run w cmd))) =
    (fun s =>
       (Some (path_resolve
                [_target cmd';
                 if isStatic s then "" else path_dirname (main s);
                 path_basename_ext (main s) ".js" +:+ ".info.json"]),
        descriptor (createPackage (derive cmd' s) (archive_run w (derive cmd' s)))))
    <$> scripts.
Proof.
  intros Hws Hdone.
  pose proof (workingSet_preparing w cmd) as Hprep. rewrite Hws in Hprep. cbn [fst] in Hprep.
  destruct scripts as [|s0 scripts0].
  { rewrite run_trace, Hws. cbn [fst snd packaging ret app].
    by rewrite calls_app, written_app, (preparing_written _ Hprep). }
  set (scripts := s0 :: scripts0) in *.
  set (derived := derive cmd' <$> scripts).
  assert (Hne : scripts <> []) by done.
  assert (Hbundled : exists stats, bundler_run w (bundlerInput cmd' derived) = Done stats).
  { rewrite run_outcome, Hws in Hdone. cbn [snd] in Hdone.
    change (packaging w cmd' scripts) with (packageScripts w cmd' scripts) in Hdone.
    rewrite packageScripts_outcome in Hdone. cbn zeta in Hdone. fold derived in Hdone.
    rewrite createBundles_eq in Hdone.
    destruct (bundler_run w (bundlerInput cmd' derived)) as [stats|e|]; [eauto|done..]. }
  destruct Hbundled as [stats Hb].
  destruct (run_bundled w cmd cmd' t scripts stats Hws Hne Hb) as [Htrace Hout].
  fold derived in Htrace, Hout.
  rewrite Hout in Hdone.
  assert (Hall : exists ds, settle_all (promise <$> packageOps w derived) = Done ds).
  { rewrite archiveAndPersist_outcome in Hdone. cbn zeta in Hdone.
    destruct (settle_all (promise <$> packageOps w derived)); [eauto|done..]. }
  destruct Hall as [ds Hall].
  rewrite Htrace, !calls_app, !written_app, archiveAndPersist_calls. cbn zeta.
  rewrite Hall, !written_app.
  destruct (written_ops w derived) as [-> ->].
  rewrite (preparing_written _ Hprep).
  rewrite !calls_cons_Do, calls_Do.
  change (written (?a :: ?b :: ?l)) with (written l).
  rewrite (bundling_written (reported Error (errors stats) ++ reported Warn (warnings stats)))
    by (apply Forall_app; split; apply reported_bundling).
  cbn [app].
  rewrite (written_WriteJson (fun op => infoFile (descriptor op)) descriptor).
  match goal with
  | |- _ ++ ?tail = _ =>
      assert (Htail : tail = []) by (by destruct (snd (archiveAndPersist w derived)));
      rewrite Htail, app_nil_r
  end.
  unfold packageOps. subst derived. rewrite <- !list_fmap_compose.
  apply list_fmap_ext. intros _ s _. unfold compose.
  by rewrite createPackage_infoFile.
Qed.

End Run.

End WithPlatform.

End RunFacts.

(** ** The properties on the scenarios *)

Module ScenarioFacts.

Import ExamplePlatform Descriptor Effects Package EffectFacts CreatePackageFacts RunFacts Scenarios.
Local Open Scope list_scope.

Abbreviation flatten := PackagerUtils.flattenDependencies.

Example loaded_descriptors :
  requires <$> loaded = [[]; ["a.js"]] /\ zipFile <$> loaded = [Some (target +:+ "/a.zip"); None].
Proof. split; reflexivity. Qed.

Example manifest_text :
  Json.stringify "  " (packageJson (derive full' descriptorB)) =
  Json.join Json.newline
    ["{";
     "  " +:+ Json.quote "name" +:+ ": " +:+ Json.quote "b" +:+ ",";
     "  " +:+ Json.quote "version" +:+ ": " +:+ Json.quote "1.0" +:+ ",";
     "  " +:+ Json.quote "description" +:+ ": " +:+ Json.quote "Lambda function of b" +:+ ",";
     "  " +:+ Json.quote "main" +:+ ": " +:+ Json.quote "b.js" +:+ ",";
     "  " +:+ Json.quote "license" +:+ ": " +:+ Json.quote "Apache-2.0";
     "}"].
Proof. reflexivity. Qed.

Lemma createPackage_failure_witness :
  let i := derive full' descriptorB in
  let run := failing i in
  let op := createPackage i run in
  (exists m, promise op = Thrown m /\ (Warning m ∈ signals run \/ Failure m ∈ signals run)) /\
  (forall m, Warning m ∈ signals run \/ Failure m ∈ signals run ->
             diagnostic m ∈ handled op) /\
  descriptor op = i /\
  archiveSize (descriptor op) = archiveSize i /\
  emitted "create-package" (started op ++ handled op) = [].
Proof.
  intros i run.
  apply (createPackage_failure i run (target +:+ "/b.zip")).
  - reflexivity.
  - exists "ENOENT: no such file or directory". left.
    apply elem_of_cons. right. apply elem_of_cons. by left.
Defined.

Lemma createPackage_success_witness :
  let i := derive full' descriptorB in
  let run := archived i in
  let op := createPackage i run in
  entries (started op) =
    [("package.json", Inline (Json.stringify "  " (packageJson i)));
     (path_basename (main i), FromFile (bundlePath i))] /\
  Json.get "main" (packageJson i) = Some (path_basename (main i)) /\
  Json.get "version" (packageJson i) = Some "1.0" /\
  Json.get "license" (packageJson i) = Some "Apache-2.0" /\
  descriptor op = set_archiveSize 1024 i /\
  archiveSize (descriptor op) = Some 1024%N /\
  promise op = Done (descriptor op) /\
  emitted "create-package" (started op ++ handled op) = [descriptor op].
Proof.
  intros i run.
  apply (createPackage_success i run (target +:+ "/b.zip") 1024).
  - reflexivity.
  - intros m. split; intros Hm; vm_compute in Hm;
      repeat (apply elem_of_cons in Hm as [Hm | Hm]; [discriminate Hm|]);
      by apply elem_of_nil in Hm.
  - reflexivity.
Defined.

Lemma run_incremental_filter_witness :
  let w := world [target +:+ "/a.zip"] quiet archived in
  let working := delete_zipFile <$> filter (fun s => zipExists w s = false) loaded in
  snd (workingSet flatten w incremental) = Done (incremental', working) /\
  emitted "ignore-package" (calls (fst (run flatten w incremental)))
    = filter (fun s => zipExists w s = true) loaded /\
  (forall s, s ∈ loaded -> zipExists w s = true -> s ∉ working) /\
  (forall s, s ∈ loaded -> zipExists w s = false ->
             delete_zipFile s ∈ working /\ zipFile (delete_zipFile s) = None).
Proof.
  intros w.
  apply (run_incremental_filter flatten w incremental incremental'
           (fst (loadDescriptors flatten w incremental)) loaded).
  - reflexivity.
  - vm_compute. reflexivity.
Defined.

Lemma run_nothing_to_package_witness :
  let t := fst (workingSet flatten upToDate incremental) in
  run flatten upToDate incremental
    = (t ++ [Do (Log Info "✅  packaging completed")], Done incremental') /\
  without bundling (calls (fst (run flatten upToDate incremental))) /\
  without archiving (calls (fst (run flatten upToDate incremental))) /\
  written (calls (fst (run flatten upToDate incremental))) = [] /\
  without alarming (calls (fst (run flatten upToDate incremental))).
Proof.
  intros t.
  apply (run_nothing_to_package flatten upToDate incremental incremental' t).
  vm_compute. reflexivity.
Defined.

Lemma run_bundler_diagnostics_witness :
  let w := world [] faulty archived in
  diagnostics (calls (fst (run flatten w full))) =
    [(Error, "Module not found: ./missing.js"); (Warn, "circular dependency")] /\
  archiveCalls (calls (fst (run flatten w full))) =
    [CreateWriteStream (target +:+ "/a.zip");
     ArchiveAppend (Json.stringify "  " (packageJson (derive full' descriptorA))) "package.json";
     ArchiveFile (Some (target +:+ "/a.bundle.js")) "a.js";
     ArchiveFinalize;
     CreateWriteStream (target +:+ "/b.zip");
     ArchiveAppend (Json.stringify "  " (packageJson (derive full' descriptorB))) "package.json";
     ArchiveFile (Some (target +:+ "/b.bundle.js")) "b.js";
     ArchiveFinalize] /\
  snd (run flatten w full) = Done full'.
Proof.
  intros w.
  destruct (run_bundler_diagnostics flatten w full full'
              (fst (workingSet flatten w full)) loaded faulty)
    as (Hdiag & Harchives & _ & _ & Hdone).
  - vm_compute. reflexivity.
  - discriminate.
  - reflexivity.
  - split; [exact Hdiag|]. split; [rewrite Harchives; reflexivity|]. apply Hdone.
    + vm_compute. repeat constructor; eexists; reflexivity.
    + vm_compute. repeat constructor.
Defined.


(** C8, as stated, fails in incremental mode: the descriptor of [a.js] is
    loaded, its archive exists, so the script is skipped and the run
    completes without writing its descriptor file back. *)
Lemma run_skipped_descriptor_not_written :
  let w := world [target +:+ "/a.zip"] quiet archived in
  snd (run flatten w incremental) = Done incremental' /\
  ~ (forall f d,
       f ∈ glob_sync w (target +:+ "/**/*.info.json") ->
       read_json w f = Done d ->
       exists d', (Some f, d') ∈ written (calls (fst (run flatten w incremental)))).
Proof.
  intros w. split; [vm_compute; reflexivity|].
  intros Hall.
  destruct (Hall infoA descriptorA) as [d' Hd'].
  - apply elem_of_cons. by left.
  - reflexivity.
  - vm_compute in Hd'.
    apply list_elem_of_singleton in Hd'. discriminate Hd'.
Qed.

Lemma run_persists_working_set_witness :
  let w := world [target +:+ "/a.zip"] quiet archived in
  written (calls (fst (run flatten w incremental))) =
    (fun s =>
       (Some (path_resolve
                [_target incremental';
                 if isStatic s then "" else path_dirname (main s);
                 path_basename_ext (main s) ".js" +:+ ".info.json"]),
        descriptor (createPackage (derive incremental' s)
                                  (archive_run w (derive incremental' s)))))
    <$> [descriptorB].
Proof.
  intros w.
  apply (run_persists_working_set flatten w incremental incremental' incremental'
           (fst (workingSet flatten w incremental)) [descriptorB]).
  - vm_compute. reflexivity.
  - vm_compute. reflexivity.
Defined.

Lemma run_incremental_no_zipFile_witness :
  let w := world [target +:+ "/a.zip"] quiet archived in
  let s := flattenOneB in
  (exists working, snd (workingSet flatten w incremental) = Done (incremental', working) /\
                   delete_zipFile s ∈ working) /\
  (forall d, d ∈ emitted "ignore-package" (calls (fst (run flatten w incremental))) ->
             truthy (zipFile d) = true) /\
  (s ∉ emitted "ignore-package" (calls (fst (run flatten w incremental)))) /\
  (delete_zipFile s ∉ emitted "ignore-package" (calls (fst (run flatten w incremental)))) /\
  fst (checkZip w s) = [] /\
  (forall p, PathExists p ∈ calls (fst (run flatten w incremental)) ->
             exists s', s' ∈ loaded /\ truthy (zipFile s') = true /\ zipFile s' = Some p).
Proof.
  intros w s.
  apply (run_incremental_no_zipFile flatten w incremental incremental'
           (fst (loadDescriptors flatten w incremental)) loaded s).
  - reflexivity.
  - vm_compute. reflexivity.
  - apply elem_of_cons. right. apply elem_of_cons. by left.
  - reflexivity.
Defined.

End ScenarioFacts.

(** ** More on the request context: how a path is taken apart *)

Module RequestContextParsing.
Import JsString RequestContext RequestContextFacts.
Open Scope Z_scope.

Lemma lastIndexOf_ge c s : -1 <= lastIndexOf c s.
Proof.
  unfold lastIndexOf. pose proof (lastIndexOfFrom_bounds c s 0 (-1)). lia.
Qed.

(** The scan started anywhere: the accumulator survives when [c] is
    absent, and the index found is shifted otherwise. *)
Lemma lastIndexOfFrom_spec c s i acc :
  lastIndexOfFrom c s i acc =
  if lastIndexOf c s =? -1 then acc else i + lastIndexOf c s.
Proof.
  revert i acc. induction s as [|a s IH]; intros i acc; [reflexivity|].
  unfold lastIndexOf. cbn [lastIndexOfFrom].
  rewrite (IH (i + 1)), (IH (0 + 1)).
  pose proof (lastIndexOf_ge c s).
  destruct (Z.eqb_spec (lastIndexOf c s) (-1)) as [E|E].
  - destruct (Ascii.eqb a c); cbn; lia.
  - destruct (Z.eqb_spec (0 + 1 + lastIndexOf c s) (-1)); lia.
Qed.

Lemma lastIndexOfFrom_app c s1 s2 i acc :
  lastIndexOfFrom c (s1 ++ s2) i acc =
  lastIndexOfFrom c s2 (i + len s1) (lastIndexOfFrom c s1 i acc).
Proof.
  revert i acc. induction s1 as [|a s1 IH]; intros i acc.
  - rewrite append_nil. change (len "") with 0. cbn [lastIndexOfFrom].
    by rewrite Z.add_0_r.
  - rewrite append_cons, len_cons. cbn [lastIndexOfFrom]. rewrite IH.
    f_equal. lia.
Qed.

(** [lastIndexOf] on a concatenation. *)
Lemma lastIndexOf_app c s1 s2 :
  lastIndexOf c (s1 ++ s2) =
  if lastIndexOf c s2 =? -1 then lastIndexOf c s1 else len s1 + lastIndexOf c s2.
Proof.
  unfold lastIndexOf at 1. rewrite lastIndexOfFrom_app, lastIndexOfFrom_spec.
  reflexivity.
Qed.

Lemma lastIndexOf_char c d :
  lastIndexOf c (String d "") = if Ascii.eqb d c then 0 else -1.
Proof. reflexivity. Qed.

Lemma len_nonneg s : 0 <= len s.
Proof. unfold len. lia. Qed.

Lemma substring_prefix_nat (n : nat) (s : string) :
  exists rest, s = String.substring 0 n s ++ rest.
Proof.
  revert s. induction n as [|n IH]; intros s.
  - exists s. by destruct s.
  - destruct s as [|a s]; [by exists ""|].
    destruct (IH s) as [rest Hrest]. exists rest.
    cbn [String.substring]. rewrite append_cons. by f_equal.
Qed.

(** [substring(0, k)] is a prefix of the string. *)
Lemma substring_prefix s k : exists rest, s = substring s 0 k ++ rest.
Proof.
  unfold substring. pose proof (len_nonneg s).
  replace (Z.min (clamp s 0) (clamp s k)) with 0 by (unfold clamp; lia).
  cbn [Z.to_nat]. apply substring_prefix_nat.
Qed.

Lemma substring_nat_app_l (a b : string) :
  String.substring 0 (String.length a) (a ++ b) = a.
Proof.
  induction a as [|x a IH]; [by destruct b|].
  rewrite append_cons. cbn [String.length String.substring]. by f_equal.
Qed.

Lemma substring_nat_skip (a b : string) (m : nat) :
  String.substring (String.length a) m (a ++ b) = String.substring 0 m b.
Proof.
  induction a as [|x a IH]; [reflexivity|].
  rewrite append_cons. cbn [String.length String.substring]. exact IH.
Qed.

(** The middle of three pieces, cut out by its indices. *)
Lemma substring_middle (a b c : string) :
  substring (a ++ b ++ c) (len a) (len a + len b) = b.
Proof.
  unfold substring, clamp. rewrite !len_app.
  pose proof (len_nonneg a). pose proof (len_nonneg b). pose proof (len_nonneg c).
  replace (Z.min _ _) with (len a) by lia.
  replace (Z.max _ _ - len a) with (len b) by lia.
  unfold len. rewrite !Nat2Z.id.
  by rewrite substring_nat_skip, substring_nat_app_l.
Qed.

Lemma substring_head (a b : string) : substring (a ++ b) 0 (len a) = a.
Proof.
  pose proof (substring_middle "" a b) as Hm.
  rewrite append_nil in Hm. change (len "") with 0 in Hm.
  by rewrite Z.add_0_l in Hm.
Qed.

Lemma append_empty_r (b : string) : b ++ "" = b.
Proof. induction b as [|x b IH]; [done|]. by rewrite append_cons, IH. Qed.

Lemma substring_tail (a b : string) : substringFrom (a ++ b) (len a) = b.
Proof.
  unfold substringFrom.
  pose proof (substring_middle a b "") as Hm.
  rewrite append_empty_r in Hm. by rewrite len_app.
Qed.

Lemma pathOf_nonempty (s : string) : s <> "" -> pathOf (Some s) = s.
Proof. by destruct s. Qed.

Lemma app_nonempty_r (a b : string) : b <> "" -> a ++ b <> "".
Proof. destruct a; [done|]. by rewrite append_cons. Qed.

(** The last slash and the last dot of a directory part: nothing, or a
    part that ends with a slash. *)
Lemma directory_indices dir :
  dir = "" \/ (exists d, dir = d ++ "/") ->
  lastIndexOf dot dir <= lastIndexOf slash dir /\ lastIndexOf slash dir = len dir - 1.
Proof.
  intros [-> | [d ->]]; [by split|].
  rewrite !lastIndexOf_app, len_app.
  change (lastIndexOf dot "/") with (-1). change (lastIndexOf slash "/") with 0.
  change (len "/") with 1. cbn [Z.eqb Pos.eqb].
  pose proof (lastIndexOf_lt_len dot d). lia.
Qed.

End RequestContextParsing.

Module RequestContextParts.
Import JsString RequestContext RequestPaths RequestContextFacts RequestContextParsing.
Open Scope Z_scope.

Lemma append_assoc (a b c : string) : (a ++ b) ++ c = a ++ b ++ c.
Proof. induction a as [|x a IH]; [done|]. by rewrite !append_cons, IH. Qed.

Lemma cons_app_nonempty a (s t : string) : String a s ++ t <> "".
Proof. by rewrite append_cons. Qed.

Lemma lastIndexOf_app_lacks c a b :
  lacks c b -> lastIndexOf c (a ++ b) = lastIndexOf c a.
Proof. unfold lacks. intros Hb. by rewrite lastIndexOf_app, Hb. Qed.

Lemma lastIndexOf_app_found c a b :
  lastIndexOf c b <> -1 -> lastIndexOf c (a ++ b) = len a + lastIndexOf c b.
Proof.
  intros Hb. rewrite lastIndexOf_app.
  by destruct (Z.eqb_spec (lastIndexOf c b) (-1)).
Qed.

Lemma lacks_app c a b : lacks c a -> lacks c b -> lacks c (a ++ b).
Proof. unfold lacks. intros Ha Hb. by rewrite lastIndexOf_app, Hb. Qed.

(** A separator followed by a part that lacks it is found where it is. *)
Lemma lastIndexOf_separator c a b :
  lacks c b -> lastIndexOf c (a ++ String c "" ++ b) = len a.
Proof.
  intros Hb. rewrite lastIndexOf_app_found.
  - rewrite lastIndexOf_app_lacks by done. rewrite lastIndexOf_char, Ascii.eqb_refl. lia.
  - rewrite lastIndexOf_app_lacks by done. by rewrite lastIndexOf_char, Ascii.eqb_refl.
Qed.

Lemma query_lacks_slash q : query q -> lacks slash q.
Proof.
  intros [-> | (r & -> & Hs & _ & _)]; [done|].
  by apply lacks_app.
Qed.

Lemma query_lacks_dot q : query q -> lacks dot q.
Proof.
  intros [-> | (r & -> & _ & Hd & _)]; [done|].
  by apply lacks_app.
Qed.

(** The index the constructor cuts the extension at. *)
Lemma query_index pre q :
  lacks qmark pre -> query q ->
  (if lastIndexOf qmark (pre ++ q) =? -1 then len (pre ++ q)
   else lastIndexOf qmark (pre ++ q)) = len pre.
Proof.
  intros Hpre [-> | (r & -> & _ & _ & Hq)].
  - rewrite append_empty_r, Hpre. done.
  - change "?" with (String qmark ""). rewrite lastIndexOf_separator by done.
    pose proof (len_nonneg pre). by destruct (Z.eqb_spec (len pre) (-1)); [lia|].
Qed.

(** The constructor on a path with an extension: the stem is cut at its
    own last dot when that dot comes after the last slash. *)
Lemma constructor_extension {Cfg} (u : option string) (cfg : Cfg) stem ext q :
  pathOf u = stem ++ "." ++ ext ++ q ->
  lacks qmark stem -> plain ext -> query q ->
  constructor {| url := u |} cfg =
  if lastIndexOf slash stem <? lastIndexOf dot stem then
    mk cfg u (stem ++ "." ++ ext ++ q)
       (substringFrom stem (lastIndexOf dot stem + 1)) ext
       (substring stem 0 (lastIndexOf dot stem))
  else mk cfg u (stem ++ "." ++ ext ++ q) "" ext stem.
Proof.
  intros Hp Hstem (Hes & Hed & Heq) Hq.
  unfold constructor. cbn [url]. rewrite Hp.
  set (p := stem ++ "." ++ ext ++ q).
  assert (Hdot : lastIndexOf dot p = len stem).
  { subst p. change "." with (String dot ""). apply lastIndexOf_separator.
    apply lacks_app; [done|]. by apply query_lacks_dot. }
  assert (Hslash : lastIndexOf slash p = lastIndexOf slash stem).
  { subst p. apply lastIndexOf_app_lacks. repeat apply lacks_app; [done|done|].
    by apply query_lacks_slash. }
  assert (Hcut : (if lastIndexOf qmark p =? -1 then len p else lastIndexOf qmark p)
                 = len stem + 1 + len ext).
  { subst p. rewrite <- !append_assoc.
    rewrite query_index by (try done; repeat apply lacks_app; done).
    rewrite !len_app. reflexivity. }
  rewrite Hdot, Hslash, Hcut.
  assert (Hstem' : substring p 0 (len stem) = stem) by apply substring_head.
  assert (Hext : substring p (len stem + 1) (len stem + 1 + len ext) = ext).
  { subst p. rewrite <- (append_assoc stem ".").
    replace (len stem + 1) with (len (stem ++ ".")) by (by rewrite len_app).
    apply substring_middle. }
  rewrite Hstem', Hext.
  pose proof (lastIndexOf_lt_len slash stem).
  destruct (Z.ltb_spec (lastIndexOf slash stem) (len stem)); [done|lia].
Qed.

(** X1: the path of a context is never empty, and its resource path is
    the path followed by [index] or a prefix of the path. *)
Theorem constructor_resourcePath_prefix {Cfg} (req : Request) (cfg : Cfg) :
  let c := constructor req cfg in
  path c <> "" /\
  (resourcePath c = path c ++ "index" \/ exists rest, path c = resourcePath c ++ rest).
Proof.
  destruct req as [u]. unfold constructor. cbn [url].
  assert (Hne : pathOf u <> "") by (by destruct u as [[|a s]|]).
  set (p := pathOf u) in *.
  destruct (lastIndexOf slash p <? lastIndexOf dot p).
  - destruct (substring_prefix p (lastIndexOf dot p)) as [r1 Hr1].
    set (rel := substring p 0 (lastIndexOf dot p)) in *.
    destruct (lastIndexOf slash p <? lastIndexOf dot rel); cbn.
    + split; [done|]. right.
      destruct (substring_prefix rel (lastIndexOf dot rel)) as [r2 Hr2].
      exists (r2 ++ r1). rewrite <- append_assoc, <- Hr2. exact Hr1.
    + split; [done|]. right. by exists r1.
  - destruct (lastIndexOf slash p =? len p - 1); cbn.
    + split; [done|]. by left.
    + split; [done|]. right. exists "". by rewrite append_empty_r.
Qed.

(** X2: a path whose last component holds no dot is its own resource
    path, whatever dots its directories hold; there is no extension and
    no selector. *)
Theorem constructor_plain_name {Cfg} (req : Request) (cfg : Cfg) (dir name : string) :
  url req = Some (dir ++ name) ->
  directory dir ->
  name <> "" ->
  lacks slash name ->
  lacks dot name ->
  let c := constructor req cfg in
  path c = dir ++ name /\
  resourcePath c = dir ++ name /\
  extension c = "" /\
  selector c = "".
Proof.
  intros Hu Hdir Hne Hslash Hdot. destruct req as [u]. cbn [url] in Hu. subst u.
  unfold constructor. cbn [url].
  rewrite (pathOf_nonempty (dir ++ name)) by (by apply app_nonempty_r).
  rewrite !lastIndexOf_app_lacks by done.
  destruct (directory_indices dir Hdir) as [Hle Heq].
  destruct (Z.ltb_spec (lastIndexOf slash dir) (lastIndexOf dot dir)); [lia|].
  rewrite len_app.
  assert (0 < len name).
  { destruct name as [|a name]; [done|]. rewrite len_cons. pose proof (len_nonneg name). lia. }
  destruct (Z.eqb_spec (lastIndexOf slash dir) (len dir + len name - 1)); [lia|].
  done.
Qed.

(** X3: [dir/base.ext], with or without a query, gives the resource path
    [dir/base], the extension [ext] and no selector. *)
Theorem constructor_extension_only {Cfg} (req : Request) (cfg : Cfg) (dir base ext q : string) :
  url req = Some ((dir ++ base) ++ "." ++ ext ++ q) ->
  directory dir ->
  lacks qmark dir ->
  plain base ->
  plain ext ->
  query q ->
  let c := constructor req cfg in
  resourcePath c = dir ++ base /\
  extension c = ext /\
  selector c = "".
Proof.
  intros Hu Hdir Hdq (Hbs & Hbd & Hbq) Hext Hq.
  destruct req as [u]. cbn [url] in Hu. subst u. cbn zeta.
  rewrite (constructor_extension _ cfg (dir ++ base) ext q); try done.
  - rewrite !lastIndexOf_app_lacks by done.
    destruct (directory_indices dir Hdir) as [Hle _].
    by destruct (Z.ltb_spec (lastIndexOf slash dir) (lastIndexOf dot dir)); [lia|].
  - apply pathOf_nonempty, app_nonempty_r, cons_app_nonempty.
  - by apply lacks_app.
Qed.

(** X4: [stem.sel.ext], with or without a query, gives the resource path
    [stem], the selector [sel] and the extension [ext]; only the last two
    dots count, so [stem] may hold dots of its own. *)
Theorem constructor_selector {Cfg} (req : Request) (cfg : Cfg) (stem sel ext q : string) :
  url req = Some ((stem ++ "." ++ sel) ++ "." ++ ext ++ q) ->
  lacks qmark stem ->
  plain sel ->
  plain ext ->
  query q ->
  let c := constructor req cfg in
  resourcePath c = stem /\
  selector c = sel /\
  extension c = ext.
Proof.
  intros Hu Hsq (Hss & Hsd & Hsq') Hext Hq.
  destruct req as [u]. cbn [url] in Hu. subst u. cbn zeta.
  rewrite (constructor_extension _ cfg (stem ++ "." ++ sel) ext q); try done.
  - change "." with (String dot "").
    rewrite (lastIndexOf_separator dot stem sel) by done.
    rewrite (lastIndexOf_app_lacks slash stem) by (by apply lacks_app).
    pose proof (lastIndexOf_lt_len slash stem).
    destruct (Z.ltb_spec (lastIndexOf slash stem) (len stem)); [|lia].
    cbn. repeat split.
    + apply substring_head.
    + rewrite <- append_assoc.
      replace (len stem + 1) with (len (stem ++ String dot "")) by (by rewrite len_app).
      apply substring_tail.
  - apply pathOf_nonempty, app_nonempty_r, cons_app_nonempty.
  - repeat apply lacks_app; done.
Qed.

Lemma constructor_plain_name_witness :
  let c := constructor {| url := Some ("/docs.v2/" ++ "readme") |} tt in
  path c = "/docs.v2/" ++ "readme" /\
  resourcePath c = "/docs.v2/" ++ "readme" /\
  extension c = "" /\
  selector c = "".
Proof.
  apply (constructor_plain_name {| url := Some ("/docs.v2/" ++ "readme") |} tt
           "/docs.v2/" "readme").
  - reflexivity.
  - right. by exists "/docs.v2".
  - discriminate.
  - reflexivity.
  - reflexivity.
Defined.

Lemma constructor_extension_only_witness :
  let c := constructor {| url := Some (("/docs/" ++ "page") ++ "." ++ "html" ++ "?x=1") |} tt in
  resourcePath c = "/docs/" ++ "page" /\
  extension c = "html" /\
  selector c = "".
Proof.
  apply (constructor_extension_only _ tt "/docs/" "page" "html" "?x=1").
  - reflexivity.
  - right. by exists "/docs".
  - reflexivity.
  - by repeat split.
  - by repeat split.
  - right. exists "x=1". by repeat split.
Defined.

Lemma constructor_selector_witness :
  let c := constructor {| url := Some (("/a.b/page" ++ "." ++ "print") ++ "." ++ "html" ++ "") |} tt in
  resourcePath c = "/a.b/page" /\
  selector c = "print" /\
  extension c = "html".
Proof.
  apply (constructor_selector _ tt "/a.b/page" "print" "html" "").
  - reflexivity.
  - reflexivity.
  - by repeat split.
  - by repeat split.
  - by left.
Defined.

End RequestContextParts.

(** ** More on [createPackage] *)

Module CreatePackageMore.

Import Descriptor Effects Package Observers EffectFacts CreatePackageFacts.
Local Open Scope list_scope.

Section WithPlatform.

Context `{Platform}.

(** X5: a call of [createPackage] emits [create-package] exactly when
    its promise is fulfilled, once and with the value of the promise; the
    descriptor then holds the bytes written as [archiveSize], and is left
    as it was in every other case. *)
Theorem createPackage_notifies_when_fulfilled (i : ActionInfo) (run : ArchiveRun) :
  let op := createPackage i run in
  emitted "create-package" (started op ++ handled op)
    = match promise op with Done d => [d] | _ => [] end /\
  descriptor op = match promise op with Done d => d | _ => i end /\
  (forall d, promise op = Done d ->
             exists n, closed run = Some n /\ d = set_archiveSize n i).
Proof.
  cbn zeta. destruct (zipFile i) as [zf|] eqn:Hz.
  - rewrite emitted_app, (createPackage_started i run zf Hz).
    rewrite (createPackage_handled i run zf Hz), (createPackage_promise i run zf Hz).
    rewrite createPackage_descriptor, Hz, emitted_app, emitted_signalActions.
    destruct (omap failureOf (signals run)) as [|m rest], (closed run) as [n|];
      cbn; repeat split; try done.
    intros d [= <-]. eauto.
  - unfold createPackage. rewrite Hz. cbn. by repeat split.
Qed.

(** X6: the promise of [createPackage] stays pending exactly when the
    descriptor names its archive, no warning or error is signalled and
    the stream never closes. *)
Theorem createPackage_pending_iff (i : ActionInfo) (run : ArchiveRun) :
  promise (createPackage i run) = Pending <->
  (exists zf, zipFile i = Some zf) /\
  omap failureOf (signals run) = [] /\
  closed run = None.
Proof.
  destruct (zipFile i) as [zf|] eqn:Hz.
  - rewrite (createPackage_promise i run zf Hz).
    destruct (omap failureOf (signals run)) as [|m rest], (closed run) as [n|];
      split; try done; try (intros (_ & ? & ?); done).
    intros _. eauto.
  - unfold createPackage. rewrite Hz. cbn. split; [done|].
    by intros ([zf Hzf] & _).
Qed.

Lemma ticks_app a1 a2 : ticks (a1 ++ a2) = ticks a1 ++ ticks a2.
Proof. apply omap_app. Qed.

Lemma errorsLogged_app a1 a2 : errorsLogged (a1 ++ a2) = errorsLogged a1 ++ errorsLogged a2.
Proof. apply omap_app. Qed.

Lemma signalActions_ticks_errors archiveName (sigs : list signal) :
  ticks (sigs ≫= signalActions archiveName) =
    (fun n => if String.eqb n "" then ""
              else "packaging " +:+ cutNodeModules (cutPackageJson n))
    <$> entryNames sigs /\
  errorsLogged (sigs ≫= signalActions archiveName) =
    (fun m => chalk_redBright "[error] " +:+ "Unable to create archive: " +:+ m)
    <$> omap failureOf sigs.
Proof.
  induction sigs as [|sig sigs IH]; [done|]. destruct IH as [IH1 IH2].
  rewrite bind_cons, ticks_app, errorsLogged_app, IH1, IH2.
  destruct sig as [n|m|m]; cbn; [|done..].
  split; [|done]. unfold tick. cbn. by destruct (String.eqb n "").
Qed.

(** X7: the progress bar is ticked once for each entry the archiver
    reports, failed archive or not, and every warning or error is logged
    as an error of its own, in the order signalled, also after the promise
    is rejected. *)
Theorem createPackage_ticks_and_errors (i : ActionInfo) (run : ArchiveRun) (zf : string) :
  zipFile i = Some zf ->
  let op := createPackage i run in
  ticks (handled op) =
    (fun n => if String.eqb n "" then ""
              else "packaging " +:+ cutNodeModules (cutPackageJson n))
    <$> entryNames (signals run) /\
  errorsLogged (handled op) =
    (fun m => chalk_redBright "[error] " +:+ "Unable to create archive: " +:+ m)
    <$> omap failureOf (signals run).
Proof.
  intros Hz. cbn zeta. rewrite (createPackage_handled i run zf Hz).
  rewrite ticks_app, errorsLogged_app.
  destruct (signalActions_ticks_errors (path_basename zf) (signals run)) as [-> ->].
  by destruct (closed run), (omap failureOf (signals run)); rewrite !app_nil_r.
Qed.

End WithPlatform.

End CreatePackageMore.

(** ** The progress label and the files of the bundler *)

Module BundlingFacts.

Import Descriptor Effects Package Observers EffectFacts.
Import RequestContextFacts RequestContextParsing.
Local Open Scope list_scope.

Abbreviation slash := RequestContext.slash.

Lemma lacks_cons c a s :
  JsString.lastIndexOf c (String a s) = (-1)%Z ->
  a <> c /\ JsString.lastIndexOf c s = (-1)%Z.
Proof.
  unfold JsString.lastIndexOf at 1. cbn [JsString.lastIndexOfFrom].
  rewrite lastIndexOfFrom_spec. pose proof (lastIndexOf_ge c s).
  destruct (Z.eqb_spec (JsString.lastIndexOf c s) (-1)); [|lia].
  destruct (Ascii.eqb_spec a c); [lia|done].
Qed.

Lemma prefix_app (p s : string) :
  String.prefix p s = true -> exists rest, s = (p ++ rest)%string.
Proof.
  intros Hp. apply String.prefix_correct in Hp.
  destruct (substring_prefix_nat (String.length p) s) as [rest Hrest].
  exists rest. by rewrite Hp in Hrest.
Qed.

Lemma cutPackageJson_no_slash s :
  JsString.lastIndexOf slash s = (-1)%Z -> cutPackageJson s = s.
Proof.
  induction s as [|a s IH]; [done|]. intros Hs.
  apply lacks_cons in Hs as [Ha Hs]. cbn [cutPackageJson].
  assert (Hat : packageJsonAt (String a s) = false).
  { unfold packageJsonAt. cbn [String.prefix].
    destruct (Ascii.ascii_dec "/" a) as [<-|_]; [done|]. done. }
  by rewrite Hat, IH.
Qed.

Lemma cutNodeModules_no_slash s :
  JsString.lastIndexOf slash s = (-1)%Z -> cutNodeModules s = s.
Proof.
  induction s as [|a s IH]; [done|]. intros Hs.
  cbn [cutNodeModules].
  destruct (String.prefix "node_modules/" (String a s)) eqn:Hp.
  - apply prefix_app in Hp as [rest Hrest]. rewrite Hrest in Hs.
    rewrite lastIndexOf_app in Hs. pose proof (lastIndexOf_ge slash rest).
    change (JsString.lastIndexOf slash "node_modules/") with 12%Z in Hs.
    change (JsString.len "node_modules/") with 13%Z in Hs.
    destruct (Z.eqb_spec (JsString.lastIndexOf slash rest) (-1)); lia.
  - apply lacks_cons in Hs as [_ Hs]. by rewrite IH.
Qed.

(** X8: for an entry whose name holds no slash, as the two entries of a
    package do, the progress bar is ticked with [packaging] and the name
    itself; a message is logged only when one is given. *)
Theorem tick_plain_entry (message name : string) :
  name <> "" ->
  JsString.lastIndexOf slash name = (-1)%Z ->
  tick message name =
  BarTick ("packaging " +:+ name)
    :: (if String.eqb message "" then [] else [LogMaybe message]).
Proof.
  intros Hne Hs. unfold tick.
  rewrite (cutPackageJson_no_slash name Hs), (cutNodeModules_no_slash name Hs).
  destruct (String.eqb_spec name ""); [done|done].
Qed.

Lemma tick_plain_entry_witness :
  tick "" "package.json" = [BarTick ("packaging " +:+ "package.json")].
Proof.
  apply (tick_plain_entry "" "package.json"); [discriminate | reflexivity].
Defined.

(** *** The [files] object *)

Lemma existsb_keys key (obj : list (string * string)) :
  existsb (fun kv => String.eqb (fst kv) key) obj = true <-> key ∈ keys obj.
Proof.
  unfold keys. rewrite existsb_exists, list_elem_of_fmap. split.
  - intros (kv & Hin & Heq). apply String.eqb_eq in Heq. exists kv.
    split; [done|]. by apply list_elem_of_In.
  - intros (kv & -> & Hin). exists kv. split; [by apply list_elem_of_In|].
    apply String.eqb_refl.
Qed.

Example arrayIndex_examples :
  arrayIndex <$> ["0"; "10"; "4294967294"; "4294967295"; "01"; "1.5"; "-1"; "b"; ""]
  = [Some 0%N; Some 10%N; Some 4294967294%N; None; None; None; None; None; None].
Proof. reflexivity. Qed.

(** An array index is written in one way only. *)
Lemma arrayIndex_decimal key n : arrayIndex key = Some n -> key = decimal n.
Proof.
  unfold arrayIndex. destruct (NilZero.uint_of_string key) as [u|]; [|done].
  cbn zeta. destruct (String.eqb_spec (decimal (N.of_uint u)) key) as [Heq|]; [|done].
  destruct (N.of_uint u <? 4294967295)%N; [|done].
  cbn. by intros [= <-].
Qed.

Lemma insertIndex_Permutation n key value (obj : list (string * string)) :
  insertIndex n key value obj ≡ₚ (key, value) :: obj.
Proof.
  induction obj as [|kv obj IH]; [done|]. cbn.
  destruct (arrayIndex (fst kv)) as [m|]; [|done].
  destruct (m <? n)%N; [|done].
  rewrite IH. apply Permutation_swap.
Qed.

(** An assignment sets the value of its key and leaves the other
    properties alone. *)
Lemma setKey_elem_of key value (obj : list (string * string)) k v :
  (k, v) ∈ setKey key value obj <->
  (k = key /\ v = value) \/ (k <> key /\ (k, v) ∈ obj).
Proof.
  unfold setKey. destruct (existsb _ obj) eqn:E.
  - rewrite list_elem_of_fmap. split.
    + intros ([k0 v0] & Heq & Hin). cbn in Heq.
      destruct (String.eqb_spec k0 key) as [->|Hne].
      * left. by injection Heq.
      * right. injection Heq as -> ->. done.
    + intros [[-> ->] | [Hne Hin]].
      * apply existsb_keys in E. unfold keys in E.
        apply list_elem_of_fmap in E as ([k0 v0] & Hk & Hin). cbn in Hk. subst k0.
        exists (key, v0). split; [|done]. cbn. by rewrite String.eqb_refl.
      * exists (k, v). split; [|done]. cbn.
        by destruct (String.eqb_spec k key).
  - assert (Hfresh : key ∉ keys obj).
    { intros Hin. apply existsb_keys in Hin. congruence. }
    assert (Hin : (k, v) ∈ match arrayIndex key with
                           | Some n => insertIndex n key value obj
                           | None => obj ++ [(key, value)]
                           end <-> (k, v) = (key, value) \/ (k, v) ∈ obj).
    { destruct (arrayIndex key) as [n|].
      - by rewrite insertIndex_Permutation, elem_of_cons.
      - rewrite elem_of_app, list_elem_of_singleton. tauto. }
    rewrite Hin. split.
    + intros [[= -> ->] | Hobj]; [by left|]. right. split; [|done].
      intros ->. apply Hfresh. unfold keys. apply list_elem_of_fmap.
      by exists (key, v).
    + intros [[-> ->] | [_ Hobj]]; [by left | by right].
Qed.

Lemma setKey_keys key value (obj : list (string * string)) :
  keys (setKey key value obj) ≡ₚ
  if decide (key ∈ keys obj) then keys obj else key :: keys obj.
Proof.
  unfold setKey. destruct (existsb _ obj) eqn:E.
  - rewrite decide_True by (by apply existsb_keys).
    unfold keys. rewrite <- list_fmap_compose.
    assert (Heq : (fst ∘ (fun kv : string * string =>
                            if String.eqb (fst kv) key then (key, value) else kv)) <$> obj
                  = fst <$> obj); [|by rewrite Heq].
    apply list_fmap_ext. intros _ kv _. cbn.
    by destruct (String.eqb_spec (fst kv) key).
  - rewrite decide_False by (intros Hin; apply existsb_keys in Hin; congruence).
    unfold keys. destruct (arrayIndex key) as [n|].
    + by rewrite insertIndex_Permutation.
    + rewrite fmap_app. cbn. symmetry. apply Permutation_cons_append.
Qed.

Lemma setKey_NoDup key value (obj : list (string * string)) :
  NoDup (keys obj) -> NoDup (keys (setKey key value obj)).
Proof.
  intros Hnd. rewrite setKey_keys. destruct (decide (key ∈ keys obj)); [done|].
  by apply NoDup_cons.
Qed.

Lemma setKey_fresh key value (obj : list (string * string)) :
  key ∉ keys obj -> arrayIndex key = None ->
  setKey key value obj = obj ++ [(key, value)].
Proof.
  intros Hk Hnone. unfold setKey.
  destruct (existsb _ obj) eqn:E; [|by rewrite Hnone].
  exfalso. by apply Hk, existsb_keys.
Qed.

(** *** The order of the keys *)

Lemma enumeratedBefore_trans k1 k2 k3 :
  enumeratedBefore k1 k2 -> enumeratedBefore k2 k3 -> enumeratedBefore k1 k3.
Proof.
  unfold enumeratedBefore.
  destruct (arrayIndex k1), (arrayIndex k2), (arrayIndex k3); try done. lia.
Qed.

Lemma enumeratedBefore_name k1 k2 : arrayIndex k2 = None -> enumeratedBefore k1 k2.
Proof. unfold enumeratedBefore. intros ->. by destruct (arrayIndex k1). Qed.

Lemma StronglySorted_snoc {A} (R : A -> A -> Prop) l x :
  StronglySorted R l -> Forall (fun y => R y x) l -> StronglySorted R (l ++ [x]).
Proof.
  induction 1 as [|y l Hl IH Hy]; intros Hx.
  - repeat constructor.
  - apply Forall_cons in Hx as [Hyx Hx]. cbn. constructor; [by apply IH|].
    apply Forall_app. split; [done|]. by constructor.
Qed.

Lemma insertIndex_sorted n key value (obj : list (string * string)) :
  arrayIndex key = Some n ->
  key ∉ keys obj ->
  StronglySorted enumeratedBefore (keys obj) ->
  StronglySorted enumeratedBefore (keys (insertIndex n key value obj)).
Proof.
  intros Hkey. induction obj as [|[k0 v0] obj IH]; intros Hfresh Hsorted.
  - repeat constructor.
  - cbn [keys fmap list_fmap fst] in Hsorted, Hfresh.
    apply StronglySorted_inv in Hsorted as [Hsorted Hk0].
    apply not_elem_of_cons in Hfresh as [Hne Hfresh].
    assert (Hfirst : enumeratedBefore key k0 ->
              StronglySorted enumeratedBefore (key :: k0 :: keys obj)).
    { intros Hb. constructor; [by constructor|]. constructor; [done|].
      eapply Forall_impl; [exact Hk0|]. intros y. by apply enumeratedBefore_trans. }
    cbn [insertIndex fst]. destruct (arrayIndex k0) as [m|] eqn:Hm.
    + destruct (N.ltb_spec m n) as [Hlt|Hge].
      * cbn [keys fmap list_fmap fst]. constructor; [by apply IH|].
        fold (keys (insertIndex n key value obj)).
        assert (Hperm : keys (insertIndex n key value obj) ≡ₚ key :: keys obj)
          by (unfold keys; by rewrite insertIndex_Permutation).
        rewrite Hperm. constructor; [|done].
        unfold enumeratedBefore. by rewrite Hm, Hkey.
      * apply Hfirst. unfold enumeratedBefore. rewrite Hkey, Hm.
        assert (m <> n); [|lia]. intros ->.
        apply arrayIndex_decimal in Hkey, Hm. congruence.
    + apply Hfirst. by apply enumeratedBefore_name.
Qed.

Lemma setKey_sorted key value (obj : list (string * string)) :
  StronglySorted enumeratedBefore (keys obj) ->
  StronglySorted enumeratedBefore (keys (setKey key value obj)).
Proof.
  intros Hsorted. unfold setKey. destruct (existsb _ obj) eqn:E.
  - assert (Heq : keys ((fun kv : string * string =>
                           if String.eqb (fst kv) key then (key, value) else kv) <$> obj)
                  = keys obj); [|by rewrite Heq].
    unfold keys. rewrite <- list_fmap_compose.
    apply list_fmap_ext. intros _ kv _. cbn.
    by destruct (String.eqb_spec (fst kv) key).
  - assert (Hfresh : key ∉ keys obj).
    { intros Hin. apply existsb_keys in Hin. congruence. }
    destruct (arrayIndex key) as [n|] eqn:Hkey.
    + by apply insertIndex_sorted.
    + unfold keys. rewrite fmap_app. apply StronglySorted_snoc; [done|].
      apply Forall_forall. intros y _. by apply enumeratedBefore_name.
Qed.

Section Files.

Variables (key value : ActionInfo -> string).

Abbreviation collect := (collectFiles key value []).

Lemma collect_snoc (scripts : list ActionInfo) s :
  collect (scripts ++ [s]) = setKey (key s) (value s) (collect scripts).
Proof. unfold collectFiles. by rewrite fold_left_app. Qed.

Lemma collect_NoDup (scripts : list ActionInfo) : NoDup (keys (collect scripts)).
Proof.
  induction scripts as [|s scripts IH] using rev_ind; [constructor|].
  rewrite collect_snoc. by apply setKey_NoDup.
Qed.

Lemma collect_sorted (scripts : list ActionInfo) :
  StronglySorted enumeratedBefore (keys (collect scripts)).
Proof.
  induction scripts as [|s scripts IH] using rev_ind; [constructor|].
  rewrite collect_snoc. by apply setKey_sorted.
Qed.

(** The value of a key is the value of the last script with that key. *)
Lemma collect_elem_of (scripts : list ActionInfo) k v :
  (k, v) ∈ collect scripts <->
  exists before s after,
    scripts = before ++ s :: after /\ key s = k /\ value s = v /\
    Forall (fun s' => key s' <> k) after.
Proof.
  induction scripts as [|s0 scripts IH] using rev_ind.
  - split; [by intros ?%elem_of_nil|].
    intros (before & s & after & Heq & _). by destruct before.
  - rewrite collect_snoc, setKey_elem_of, IH. split.
    + intros [[-> ->] | (Hne & before & s & after & -> & Hk & Hv & Hafter)].
      * exists scripts, s0, []. by repeat split.
      * exists before, s, (after ++ [s0]). rewrite <- app_assoc.
        repeat split; [done..|]. apply Forall_app. split; [done|].
        constructor; [congruence|done].
    + intros (before & s & after & Heq & Hk & Hv & Hafter).
      destruct after as [|s1 after _] using rev_ind.
      * apply (app_inj_tail scripts before s0 s) in Heq as [-> ->]. by left.
      * rewrite app_comm_cons, app_assoc in Heq.
        apply app_inj_tail in Heq as [-> ->].
        apply Forall_app in Hafter as [Hafter Hs1].
        apply Forall_cons in Hs1 as [Hs1 _].
        right. split; [done|]. by exists before, s, after.
Qed.

Lemma collect_keys (scripts : list ActionInfo) k :
  k ∈ keys (collect scripts) <-> exists s, s ∈ scripts /\ key s = k.
Proof.
  induction scripts as [|s0 scripts IH] using rev_ind.
  - split; [by intros ?%elem_of_nil|]. by intros (s & ?%elem_of_nil & _).
  - rewrite collect_snoc, setKey_keys.
    assert (Hiff : k ∈ (if decide (key s0 ∈ keys (collect scripts))
                        then keys (collect scripts)
                        else key s0 :: keys (collect scripts))
                   <-> k = key s0 \/ k ∈ keys (collect scripts)).
    { destruct (decide (key s0 ∈ keys (collect scripts))) as [Hin|].
      - split; [by right|]. by intros [->|].
      - apply elem_of_cons. }
    rewrite Hiff, IH. split.
    + intros [-> | (s & Hs & Hk)].
      * exists s0. split; [|done]. apply elem_of_app. right. by apply list_elem_of_singleton.
      * exists s. split; [|done]. apply elem_of_app. by left.
    + intros (s & [Hs | ->%list_elem_of_singleton]%elem_of_app & Hk).
      * right. by exists s.
      * by left.
Qed.

Lemma collect_distinct (scripts : list ActionInfo) :
  NoDup (key <$> scripts) ->
  Forall (fun s => arrayIndex (key s) = None) scripts ->
  collect scripts = (fun s => (key s, value s)) <$> scripts.
Proof.
  induction scripts as [|s0 scripts IH] using rev_ind; [done|].
  rewrite fmap_app. intros [Hnd [Hs0 _]]%NoDup_app [Hnames Hname]%Forall_app.
  apply Forall_cons in Hname as [Hname _].
  rewrite collect_snoc, (IH Hnd Hnames), fmap_app.
  apply setKey_fresh; [|done].
  unfold keys. rewrite <- list_fmap_compose. intros Hin.
  apply (Hs0 (key s0)); [done|]. cbn. apply elem_of_cons. by left.
Qed.

End Files.

Section WithPlatform.

Context `{Platform}.


End WithPlatform.

End BundlingFacts.

(** ** More on [run] *)

Module RunMore.

Import Descriptor Effects Package Observers EffectFacts CreatePackageFacts RunFacts.
Local Open Scope list_scope.

Section WithPlatform.

Context `{Platform}.

(** The notifications of one [createPackage] call. *)
Lemma createPackage_created i run :
  emitted "create-package" (started (createPackage i run)) = [] /\
  emitted "create-package" (handled (createPackage i run))
    = match promise (createPackage i run) with Done d => [d] | _ => [] end.
Proof.
  destruct (zipFile i) as [zf|] eqn:Hz.
  - rewrite (createPackage_started i run zf Hz), (createPackage_handled i run zf Hz).
    rewrite (createPackage_promise i run zf Hz), emitted_app, emitted_signalActions.
    split; [done|].
    by destruct (omap failureOf (signals run)), (closed run).
  - unfold createPackage. by rewrite Hz.
Qed.

(** A fulfilled [createPackage] promise holds the descriptor, with the
    size of the archive. *)
Lemma createPackage_fulfilled i run d :
  promise (createPackage i run) = Done d ->
  d = descriptor (createPackage i run) /\ exists n, archiveSize d = Some n.
Proof.
  destruct (zipFile i) as [zf|] eqn:Hz.
  - rewrite (createPackage_promise i run zf Hz), createPackage_descriptor, Hz.
    destruct (omap failureOf (signals run)), (closed run) as [n|]; try done.
    intros [= <-]. split; [done|]. by exists n.
  - unfold createPackage. by rewrite Hz.
Qed.

Lemma ops_created w (scripts : list ActionInfo) :
  emitted "create-package" (packageOps w scripts ≫= started) = [] /\
  emitted "create-package" (packageOps w scripts ≫= handled)
    = fulfilled (packageOps w scripts).
Proof.
  unfold packageOps, fulfilled.
  induction scripts as [|s scripts [IH1 IH2]]; [done|].
  rewrite fmap_cons, !bind_cons, !emitted_app, IH1, IH2.
  destruct (createPackage_created s (archive_run w s)) as [-> ->].
  split; [done|]. cbn [omap list_omap].
  by destruct (promise (createPackage s (archive_run w s))).
Qed.

(** [Promise.all] is fulfilled only when every promise is. *)
Lemma settle_all_Done_elem {A} (os : list (outcome A)) l o :
  settle_all os = Done l -> o ∈ os -> exists a, o = Done a.
Proof.
  revert l. induction os as [|o' os IH]; intros l Hall Hin.
  - by apply elem_of_nil in Hin.
  - cbn in Hall. destruct o' as [a|e|]; [|done|by destruct (settle_all os)].
    destruct (settle_all os) as [l'|e|]; [|done..].
    apply elem_of_cons in Hin as [-> | Hin]; [eauto|]. by eapply IH.
Qed.

(** [Promise.all] over a rejected promise is rejected, with the reason
    of one of the rejected promises. *)
Lemma settle_all_rejected {A} (os : list (outcome A)) e :
  Thrown e ∈ os -> exists e', Thrown e' ∈ os /\ settle_all os = Thrown e'.
Proof.
  induction os as [|o os IH]; intros Hin; [by apply elem_of_nil in Hin|].
  destruct o as [a|e0|].
  - apply elem_of_cons in Hin as [?|Hin]; [done|].
    destruct (IH Hin) as (e' & Hin' & Heq). exists e'.
    split; [apply elem_of_cons; by right|]. cbn. by rewrite Heq.
  - exists e0. split; [apply elem_of_cons; by left | done].
  - apply elem_of_cons in Hin as [?|Hin]; [done|].
    destruct (IH Hin) as (e' & Hin' & Heq). exists e'.
    split; [apply elem_of_cons; by right|]. cbn. by rewrite Heq.
Qed.

(** An observer that gives nothing on the calls of some kind gives
    nothing on a list of such calls. *)
Lemma omap_none_Forall {B} (f : action -> option B) (P : action -> bool) (acts : list action) :
  (forall a, P a = true -> f a = None) ->
  Forall (fun a => P a = true) acts -> omap f acts = [].
Proof.
  intros Hf. induction 1 as [|a acts Ha _ IH]; [done|].
  cbn. by rewrite (Hf a Ha), IH.
Qed.

Lemma written_nil_without acts : written acts = [] -> without persisting acts.
Proof.
  induction acts as [|a acts IH]; [constructor|].
  destruct a; cbn; intros Hw; constructor; try done; by apply IH.
Qed.

(** The order of two kinds of calls that the two parts of a trace keep
    apart. *)
Lemma order_from_split (t tA tB : trace) (P Q : action -> bool) :
  t = tA ++ tB ->
  without P (calls tA) ->
  without Q (calls tB) ->
  forall l i j a b,
    linearization t l -> l !! i = Some a -> l !! j = Some b ->
    P a = true -> Q b = true -> j < i.
Proof.
  intros -> HA HB l i j a b Hlin Hi Hj Ha Hb.
  apply linearization_app in Hlin as (lA & lB & -> & HlA & HlB).
  unfold without in HA, HB. rewrite Forall_forall in HA, HB.
  assert (Hi' : length lA <= i).
  { destruct (decide (i < length lA)) as [Hlt|]; [|lia].
    rewrite lookup_app_l in Hi by done.
    assert (Hin : a ∈ lA) by (apply list_elem_of_lookup; eauto).
    apply (linearization_elem_of _ _ _ HlA), HA in Hin. congruence. }
  assert (Hj' : j < length lA).
  { destruct (decide (j < length lA)) as [|Hge]; [done|].
    rewrite lookup_app_r in Hj by lia.
    assert (Hin : b ∈ lB) by (apply list_elem_of_lookup; eauto).
    apply (linearization_elem_of _ _ _ HlB), HB in Hin. congruence. }
  lia.
Qed.

Lemma preparing_created acts :
  Forall (fun a => preparing a = true) acts -> emitted "create-package" acts = [].
Proof.
  apply omap_none_Forall. intros a Ha. destruct a; try done.
  cbn in Ha. apply String.eqb_eq in Ha as ->. done.
Qed.

Lemma bundling_emitted event acts :
  Forall (fun a => bundling a = true) acts -> emitted event acts = [].
Proof. apply omap_none_Forall. by intros []. Qed.

(** X10: deriving the additional properties of a script a second time,
    for the same target, changes nothing, also after [createPackage] has
    set its [archiveSize]: the names and paths derived depend on [main],
    [isStatic] and the target only. *)
Theorem derive_descriptor_fixed (cmd : PackageCommand) (s : ActionInfo) (run : ArchiveRun) :
  let d := descriptor (createPackage (derive cmd s) run) in
  derive cmd d = d /\ derive cmd (derive cmd s) = derive cmd s.
Proof.
  cbn zeta. rewrite createPackage_descriptor.
  split; [|done].
  by destruct (zipFile (derive cmd s)), (omap failureOf (signals run)), (closed run).
Qed.

Section Run.

Variable flattenDependencies : list ActionInfo -> list ActionInfo.

Abbreviation loadDescriptors := (loadDescriptors flattenDependencies).
Abbreviation workingSet := (workingSet flattenDependencies).
Abbreviation run := (run flattenDependencies).

(** The working set when the descriptors could not be loaded. *)
Lemma workingSet_not_loaded w cmd :
  (forall x, snd (loadDescriptors w cmd) <> Done x) ->
  fst (workingSet w cmd) = fst (loadDescriptors w cmd) /\
  snd (workingSet w cmd) =
    match snd (loadDescriptors w cmd) with
    | Thrown e => Thrown e
    | _ => Pending
    end.
Proof.
  intros Hno. unfold Package.workingSet.
  destruct (Package.loadDescriptors flattenDependencies w cmd) as [t [x|e|]];
    cbn in *; [by destruct (Hno x)|done..].
Qed.

(** X11: when incremental mode is off, the working set is the loaded
    set as it is, the file system is never asked whether an archive
    exists, and no [ignore-package] notification is emitted. *)
Theorem run_not_incremental (w : World) (cmd cmd' : PackageCommand) (t0 : trace) (scripts : list ActionInfo) :
  _onlyModified cmd = false ->
  loadDescriptors w cmd = (t0, Done (cmd', scripts)) ->
  workingSet w cmd = (t0, Done (cmd', scripts)) /\
  emitted "ignore-package" (calls (fst (run w cmd))) = [] /\
  (forall p, PathExists p ∉ calls (fst (run w cmd))).
Proof.
  intros Hmode Hload. split; [|split].
  - by rewrite (workingSet_loaded _ w cmd t0 cmd' scripts Hload), Hmode.
  - by rewrite run_ignored, Hload, Hmode.
  - intros p [Hon _]%run_pathExists. congruence.
Qed.

(** X12: when the build fails, [run] is rejected with the reason of the
    build, having called nothing but the initialisation and the build. *)
Theorem run_build_failure (w : World) (cmd : PackageCommand) (e : string) :
  super_init w = Done tt ->
  build_run w (_files cmd) (path_resolve [directory cmd; _target cmd]) = Thrown e ->
  run w cmd =
  ([Do SuperInit; Do (BuildRun (_files cmd) (path_resolve [directory cmd; _target cmd]))],
   Thrown e).
Proof.
  intros Hinit Hbuild.
  unfold Package.run, Package.workingSet, Package.loadDescriptors, init, call, ret, bind.
  rewrite Hinit. cbn. by rewrite Hbuild.
Qed.

(** X13: when a descriptor file cannot be read, [run] is rejected with
    the reason of a failed read, and has only built and read: its calls
    are the initialisation, the build, the glob and the read of every
    file found, the readable ones too, in the order found; nothing is
    checked, bundled, archived or written. *)
Theorem run_read_failure (w : World) (cmd : PackageCommand) (f e : string) :
  super_init w = Done tt ->
  build_run w (_files cmd) (path_resolve [directory cmd; _target cmd]) = Done tt ->
  f ∈ glob_sync w (path_resolve [directory cmd; _target cmd] +:+ "/**/*.info.json") ->
  read_json w f = Thrown e ->
  (exists f' e',
     f' ∈ glob_sync w (path_resolve [directory cmd; _target cmd] +:+ "/**/*.info.json") /\
     read_json w f' = Thrown e' /\
     snd (run w cmd) = Thrown e') /\
  calls (fst (run w cmd)) =
    [SuperInit;
     BuildRun (_files cmd) (path_resolve [directory cmd; _target cmd]);
     GlobSync (path_resolve [directory cmd; _target cmd] +:+ "/**/*.info.json")]
    ++ (ReadJSON <$>
        glob_sync w (path_resolve [directory cmd; _target cmd] +:+ "/**/*.info.json")) /\
  Forall (fun a => loading a = true) (calls (fst (run w cmd))).
Proof.
  intros Hinit Hbuild Hf He.
  set (infos := glob_sync w (path_resolve [directory cmd; _target cmd] +:+ "/**/*.info.json")) in *.
  destruct (settle_all_rejected (read_json w <$> infos) e) as (e' & Hin' & Hall).
  { rewrite <- He. by apply list_elem_of_fmap_2. }
  assert (Hload : snd (loadDescriptors w cmd) = Thrown e').
  { unfold Package.loadDescriptors, init, call, perform, promise_all, ret, bind.
    rewrite Hinit. cbn. rewrite Hbuild. cbn. fold infos.
    rewrite <- list_fmap_compose.
    change (snd ∘ _) with (read_json w). by rewrite Hall. }
  destruct (workingSet_not_loaded w cmd) as [Hfst Hsnd]; [by rewrite Hload|].
  rewrite Hload in Hsnd.
  split.
  - apply list_elem_of_fmap in Hin' as (f' & Hf' & Hin').
    exists f', e'. split; [done|]. split; [done|].
    by rewrite run_outcome, Hsnd.
  - split; [|rewrite run_trace, Hsnd, app_nil_r, Hfst; apply loadDescriptors_loading].
    rewrite run_trace, Hsnd, app_nil_r, Hfst.
    unfold Package.loadDescriptors, init, call, perform, promise_all, ret, bind.
    rewrite Hinit. cbn. rewrite Hbuild. cbn. fold infos.
    rewrite <- !list_fmap_compose.
    change (snd ∘ _) with (read_json w). rewrite Hall.
    change (fst ∘ _) with (fun f : string => [ReadJSON f]).
    cbn [fst]. rewrite !calls_cons_Do. do 3 f_equal.
    unfold calls. cbn. by rewrite app_nil_r, join_singletons.
Qed.

(** X14: when the bundler throws, [run] is rejected with its reason
    right after the bundler call: no archive is started, no descriptor is
    written and the completion is not logged. *)
Theorem run_bundler_throws (w : World) (cmd cmd' : PackageCommand) (t : trace) (scripts : list ActionInfo) (e : string) :
  workingSet w cmd = (t, Done (cmd', scripts)) ->
  scripts <> [] ->
  bundler_run w (bundlerInput cmd' (derive cmd' <$> scripts)) = Thrown e ->
  run w cmd =
  (t ++ [Do (NewProgressBar (length (derive cmd' <$> scripts) * 2 * 5));
         Do (BundlerRun (bundlerInput cmd' (derive cmd' <$> scripts)))],
   Thrown e).
Proof.
  intros Hws Hne Hb.
  assert (Hpkg : packaging w cmd' scripts = packageScripts w cmd' scripts)
    by (by destruct scripts).
  rewrite (surjective_pairing (run w cmd)), run_trace, run_outcome, Hws.
  cbn [fst snd]. rewrite Hpkg, packageScripts_trace, packageScripts_outcome.
  cbn zeta. rewrite createBundles_eq, Hb. cbn [fst snd].
  by rewrite !app_nil_r.
Qed.

(** The calls of a run whose bundler returns. *)
Lemma run_calls_bundled w cmd cmd' t (scripts : list ActionInfo) stats :
  workingSet w cmd = (t, Done (cmd', scripts)) ->
  scripts <> [] ->
  bundler_run w (bundlerInput cmd' (derive cmd' <$> scripts)) = Done stats ->
  let derived := derive cmd' <$> scripts in
  let ops := packageOps w derived in
  calls (fst (run w cmd)) =
    calls t ++
    [NewProgressBar (length derived * 2 * 5); BundlerRun (bundlerInput cmd' derived)] ++
    reported Error (errors stats) ++ reported Warn (warnings stats) ++
    (ops ≫= started) ++ (ops ≫= handled) ++
    match settle_all (promise <$> ops) with
    | Done _ => (fun op => WriteJson (infoFile (descriptor op)) (descriptor op)) <$> ops
    | _ => []
    end ++
    match snd (archiveAndPersist w derived) with
    | Done _ => [completed]
    | _ => []
    end.
Proof.
  intros Hws Hne Hb derived ops.
  destruct (run_bundled _ w cmd cmd' t scripts stats Hws Hne Hb) as [Htrace _].
  fold derived in Htrace. rewrite Htrace.
  rewrite !calls_app, !calls_cons_Do, calls_Do, archiveAndPersist_calls.
  cbn zeta. fold ops. rewrite <- !app_assoc. cbn [app]. rewrite <- !app_assoc.
  by destruct (snd (archiveAndPersist w derived)).
Qed.

(** A completed run has had its bundler return and all its archives
    done. *)
Lemma run_done_inv w cmd cmd' c t (scripts : list ActionInfo) :
  workingSet w cmd = (t, Done (cmd', scripts)) ->
  scripts <> [] ->
  snd (run w cmd) = Done c ->
  exists stats ds,
    bundler_run w (bundlerInput cmd' (derive cmd' <$> scripts)) = Done stats /\
    settle_all (promise <$> packageOps w (derive cmd' <$> scripts)) = Done ds /\
    snd (archiveAndPersist w (derive cmd' <$> scripts)) = Done tt.
Proof.
  intros Hws Hne Hdone.
  assert (Hpkg : packaging w cmd' scripts = packageScripts w cmd' scripts)
    by (by destruct scripts).
  rewrite run_outcome, Hws in Hdone. cbn [snd] in Hdone.
  rewrite Hpkg, packageScripts_outcome in Hdone. cbn zeta in Hdone.
  rewrite createBundles_eq in Hdone.
  destruct (bundler_run w _) as [stats|e|]; cbn [snd] in Hdone; [|done..].
  exists stats.
  pose proof (archiveAndPersist_outcome w (derive cmd' <$> scripts)) as Hout.
  cbn zeta in Hout.
  destruct (snd (archiveAndPersist w (derive cmd' <$> scripts))) as [[]|e|]; [|done..].
  destruct (settle_all (promise <$> _)) as [ds|e|]; [|done..].
  by exists ds.
Qed.

(** The completion is logged only by a run that completes. *)
Lemma run_completed_inv w cmd :
  completed ∈ calls (fst (run w cmd)) -> exists c, snd (run w cmd) = Done c.
Proof.
  rewrite run_trace, run_outcome, calls_app, elem_of_app.
  intros [Hin | Hin].
  - pose proof (workingSet_preparing flattenDependencies w cmd) as Hp. rewrite Forall_forall in Hp.
    by apply Hp in Hin.
  - destruct (snd (workingSet w cmd)) as [[cmd' scripts]|e|];
      [|by apply elem_of_nil in Hin..].
    rewrite calls_app, elem_of_app in Hin. destruct Hin as [Hin | Hin].
    + pose proof (packaging_calls w cmd' scripts) as Hp. rewrite Forall_forall in Hp.
      by apply Hp in Hin.
    + destruct (snd (packaging w cmd' scripts)); [eauto|by apply elem_of_nil in Hin..].
Qed.

(** X15: the completion is logged exactly when [run] is fulfilled, and
    then as its very last call. *)
Theorem run_completed_iff (w : World) (cmd : PackageCommand) :
  (completed ∈ calls (fst (run w cmd)) <-> exists c, snd (run w cmd) = Done c) /\
  (forall c, snd (run w cmd) = Done c ->
             exists before, calls (fst (run w cmd)) = before ++ [completed] /\
                            completed ∉ before).
Proof.
  assert (Hlast : forall c, snd (run w cmd) = Done c ->
             exists before, calls (fst (run w cmd)) = before ++ [completed] /\
                            completed ∉ before).
  { intros c. rewrite run_outcome, run_trace.
    pose proof (workingSet_preparing flattenDependencies w cmd) as Hp. rewrite Forall_forall in Hp.
    destruct (snd (workingSet w cmd)) as [[cmd' scripts]|e|]; [|done..].
    pose proof (packaging_calls w cmd' scripts) as Hq. rewrite Forall_forall in Hq.
    destruct (snd (packaging w cmd' scripts)) as [[]|e|]; [|done..].
    intros _. exists (calls (fst (workingSet w cmd)) ++ calls (fst (packaging w cmd' scripts))).
    split; [by rewrite !calls_app, app_assoc|].
    intros [Hin | Hin]%elem_of_app; [by apply Hp in Hin | by apply Hq in Hin]. }
  split; [|exact Hlast]. split; [apply run_completed_inv|].
  intros [c Hc]. destruct (Hlast c Hc) as (before & -> & _).
  apply elem_of_app. right. by apply list_elem_of_singleton.
Qed.

(** The [create-package] notifications of a run whose bundler returns. *)
Lemma run_created w cmd cmd' t (scripts : list ActionInfo) stats :
  workingSet w cmd = (t, Done (cmd', scripts)) ->
  scripts <> [] ->
  bundler_run w (bundlerInput cmd' (derive cmd' <$> scripts)) = Done stats ->
  emitted "create-package" (calls (fst (run w cmd)))
    = fulfilled (packageOps w (derive cmd' <$> scripts)).
Proof.
  intros Hws Hne Hb.
  rewrite (run_calls_bundled w cmd cmd' t scripts stats Hws Hne Hb).
  pose proof (workingSet_preparing flattenDependencies w cmd) as Hprep.
  rewrite Hws in Hprep. cbn [fst] in Hprep.
  rewrite !emitted_app.
  destruct (ops_created w (derive cmd' <$> scripts)) as [-> ->].
  rewrite (preparing_created _ Hprep).
  rewrite !(bundling_emitted _ _ (reported_bundling _ _)).
  cbn [app emitted omap list_omap].
  assert (Hw : forall (l : list PackageOp),
            emitted "create-package"
              ((fun op => WriteJson (infoFile (descriptor op)) (descriptor op)) <$> l) = []).
  { induction l as [|op l IH]; [done|]. exact IH. }
  destruct (settle_all _), (snd (archiveAndPersist _ _));
    rewrite ?Hw; cbn; by rewrite ?app_nil_r.
Qed.

(** However the concurrent operations take their turns, the calls are
    the same, in another order. *)
Lemma join_insert_Permutation {A} (ts : list (list A)) i a t :
  ts !! i = Some (a :: t) -> mjoin ts ≡ₚ a :: mjoin (<[i := t]> ts).
Proof.
  revert i. induction ts as [|x ts IH]; intros [|i] Hi; try done.
  - by injection Hi as ->.
  - cbn in *. rewrite (IH i Hi). symmetry. apply Permutation_middle.
Qed.

Lemma interleaving_Permutation ts l : interleaving ts l -> l ≡ₚ mjoin ts.
Proof.
  induction 1 as [ts Hts | ts i a t l Hi _ IH].
  - induction Hts as [|t ts -> _ IH]; [done | exact IH].
  - by rewrite (join_insert_Permutation ts i a t Hi), IH.
Qed.

Lemma linearization_Permutation t l : linearization t l -> l ≡ₚ calls t.
Proof.
  induction 1 as [|a t l _ IH | ts t l1 l2 Hts _ IH].
  - done.
  - by rewrite calls_cons_Do, IH.
  - by rewrite calls_cons_All, IH, (interleaving_Permutation ts l1 Hts).
Qed.

(** X16: when the bundler returns, then in whatever order the archives
    are completed, the [create-package] notifications of the run are the
    values of the fulfilled [createPackage] promises, one for each,
    whatever becomes of the other archives; each of them carries an
    [archiveSize]. *)
Theorem run_created_packages (w : World) (cmd cmd' : PackageCommand) (t : trace) (scripts : list ActionInfo) (stats : Stats) (l : list action) :
  workingSet w cmd = (t, Done (cmd', scripts)) ->
  scripts <> [] ->
  bundler_run w (bundlerInput cmd' (derive cmd' <$> scripts)) = Done stats ->
  linearization (fst (run w cmd)) l ->
  emitted "create-package" l ≡ₚ fulfilled (packageOps w (derive cmd' <$> scripts)) /\
  (forall d, d ∈ emitted "create-package" l -> exists n, archiveSize d = Some n).
Proof.
  intros Hws Hne Hb Hl.
  assert (Hperm : emitted "create-package" l
                  ≡ₚ fulfilled (packageOps w (derive cmd' <$> scripts))).
  { rewrite <- (run_created w cmd cmd' t scripts stats Hws Hne Hb).
    unfold emitted. by rewrite (linearization_Permutation _ _ Hl). }
  split; [exact Hperm|].
  intros d Hd. rewrite Hperm in Hd. revert Hd. unfold fulfilled, packageOps.
  intros (op & Hop & Hd)%list_elem_of_omap.
  apply list_elem_of_fmap in Hop as (s & -> & _).
  destruct (promise _) as [d'|e|] eqn:Hp; [|done..].
  injection Hd as ->. by apply createPackage_fulfilled in Hp as [_ ?].
Qed.

(** The descriptor files written by a run whose bundler returns. *)
Lemma run_written w cmd cmd' t (scripts : list ActionInfo) stats :
  workingSet w cmd = (t, Done (cmd', scripts)) ->
  scripts <> [] ->
  bundler_run w (bundlerInput cmd' (derive cmd' <$> scripts)) = Done stats ->
  let ops := packageOps w (derive cmd' <$> scripts) in
  written (calls (fst (run w cmd))) =
    match settle_all (promise <$> ops) with
    | Done _ => (fun op => (infoFile (descriptor op), descriptor op)) <$> ops
    | _ => []
    end.
Proof.
  intros Hws Hne Hb ops.
  rewrite (run_calls_bundled w cmd cmd' t scripts stats Hws Hne Hb).
  pose proof (workingSet_preparing flattenDependencies w cmd) as Hprep.
  rewrite Hws in Hprep. cbn [fst] in Hprep.
  rewrite !written_app. fold ops.
  destruct (written_ops w (derive cmd' <$> scripts)) as [Hs Hh].
  fold ops in Hs, Hh. rewrite Hs, Hh.
  rewrite (preparing_written _ Hprep).
  rewrite !(bundling_written _ (reported_bundling _ _)).
  cbn [app written omap list_omap].
  assert (Htail : written match snd (archiveAndPersist w (derive cmd' <$> scripts)) with
                          | Done _ => [completed]
                          | _ => []
                          end = []) by (by destruct (snd (archiveAndPersist _ _))).
  rewrite Htail, app_nil_r.
  destruct (settle_all (promise <$> ops)); [|done..].
  apply (written_WriteJson (fun op => infoFile (descriptor op)) descriptor).
Qed.

(** X17: when the bundler returns but the archive of some script fails or
    never finishes, [run] is not fulfilled, no descriptor file is written,
    not even for the scripts whose archives are done, and the completion
    is not logged. *)
Theorem run_archive_not_fulfilled (w : World) (cmd cmd' : PackageCommand) (t : trace) (scripts : list ActionInfo) (stats : Stats) (op : PackageOp) :
  workingSet w cmd = (t, Done (cmd', scripts)) ->
  scripts <> [] ->
  bundler_run w (bundlerInput cmd' (derive cmd' <$> scripts)) = Done stats ->
  op ∈ packageOps w (derive cmd' <$> scripts) ->
  (forall d, promise op <> Done d) ->
  (forall c, snd (run w cmd) <> Done c) /\
  written (calls (fst (run w cmd))) = [] /\
  completed ∉ calls (fst (run w cmd)).
Proof.
  intros Hws Hne Hb Hop Hno.
  assert (Hall : forall ds, settle_all (promise <$> packageOps w (derive cmd' <$> scripts))
                            <> Done ds).
  { intros ds Hall.
    destruct (settle_all_Done_elem _ ds (promise op) Hall) as [a Ha].
    - by apply list_elem_of_fmap_2.
    - by apply (Hno a). }
  assert (Hrun : forall c, snd (run w cmd) <> Done c).
  { intros c Hc.
    destruct (run_done_inv w cmd cmd' c t scripts Hws Hne Hc) as (_ & ds & _ & Hds & _).
    by apply (Hall ds). }
  split; [exact Hrun|]. split.
  - rewrite (run_written w cmd cmd' t scripts stats Hws Hne Hb). cbn zeta.
    destruct (settle_all _) as [ds|e|] eqn:E; [|done..]. by destruct (Hall ds).
  - intros [c Hc]%run_completed_inv. by apply (Hrun c).
Qed.

(** X18: every descriptor file a completed run writes is written to the
    [infoFile] the descriptor itself names, holds the size of the archive,
    and is the descriptor a [create-package] notification of the run
    carried. *)
Theorem run_written_descriptors (w : World) (cmd cmd' c : PackageCommand) (t : trace) (scripts : list ActionInfo) (f : option string) (d : ActionInfo) :
  workingSet w cmd = (t, Done (cmd', scripts)) ->
  snd (run w cmd) = Done c ->
  (f, d) ∈ written (calls (fst (run w cmd))) ->
  f = infoFile d /\
  (exists n, archiveSize d = Some n) /\
  d ∈ emitted "create-package" (calls (fst (run w cmd))).
Proof.
  intros Hws Hdone Hin.
  destruct scripts as [|s0 scripts0].
  { exfalso. rewrite run_trace, Hws in Hin. cbn [fst snd packaging ret app] in Hin.
    pose proof (workingSet_preparing flattenDependencies w cmd) as Hprep.
    rewrite Hws in Hprep. cbn [fst] in Hprep.
    rewrite calls_app, written_app, (preparing_written _ Hprep) in Hin.
    by apply elem_of_nil in Hin. }
  set (scripts := s0 :: scripts0) in *.
  assert (Hne : scripts <> []) by done.
  destruct (run_done_inv w cmd cmd' c t scripts Hws Hne Hdone) as (stats & ds & Hb & Hds & _).
  rewrite (run_written w cmd cmd' t scripts stats Hws Hne Hb) in Hin. cbn zeta in Hin.
  rewrite Hds in Hin.
  apply list_elem_of_fmap in Hin as (op & [= -> ->] & Hop).
  destruct (settle_all_Done_elem _ ds (promise op) Hds) as [a Ha];
    [by apply list_elem_of_fmap_2|].
  assert (Hop' := Hop). unfold packageOps in Hop'.
  apply list_elem_of_fmap in Hop' as (s & -> & _).
  destruct (createPackage_fulfilled _ _ _ Ha) as [-> Hsize].
  split; [done|]. split; [done|].
  rewrite (run_created w cmd cmd' t scripts stats Hws Hne Hb).
  unfold fulfilled. apply list_elem_of_omap.
  exists (createPackage s (archive_run w s)). split; [done|]. by rewrite Ha.
Qed.

Lemma join_fmap_bind {A B} (f : A -> list B) (l : list A) : mjoin (f <$> l) = l ≫= f.
Proof. induction l as [|x l IH]; [done|]. cbn. f_equal. exact IH. Qed.

(** A run falls into a part that writes no descriptor file followed by a
    part that writes or announces no archive. *)
Lemma run_phases_persisting w cmd :
  exists tA tB,
    fst (run w cmd) = tA ++ tB /\
    without persisting (calls tA) /\
    without producing (calls tB).
Proof.
  pose proof (workingSet_preparing flattenDependencies w cmd) as Hprep.
  assert (Hws : without persisting (calls (fst (workingSet w cmd)))).
  { eapply Forall_impl; [exact Hprep|]. intros a Ha. by destruct a. }
  rewrite run_trace.
  destruct (snd (workingSet w cmd)) as [[cmd' scripts]|e|].
  2,3: exists (fst (workingSet w cmd)), []; split; [done|]; split; [done|constructor].
  set (tail := match snd (packaging w cmd' scripts) with
               | Done _ => [Do (Log Info "✅  packaging completed")]
               | _ => []
               end).
  assert (Htail : without producing (calls tail)).
  { subst tail. destruct (snd (packaging _ _ _)); by repeat constructor. }
  destruct scripts as [|s scripts].
  { exists (fst (workingSet w cmd)), tail. cbn [packaging ret fst app]. done. }
  unfold packaging at 1. rewrite packageScripts_trace. cbn zeta.
  set (derived := derive cmd' <$> s :: scripts).
  assert (Hcb : without persisting (calls (fst (createBundles w cmd' derived)))).
  { eapply Forall_impl; [apply createBundles_bundling|]. intros a Ha. by destruct a. }
  destruct (snd (createBundles w cmd' derived)) as [[]|e|].
  2,3: exists (fst (workingSet w cmd) ++
               Do (NewProgressBar (length derived * 2 * 5)) :: fst (createBundles w cmd' derived)),
              tail;
       rewrite app_nil_r, <- app_assoc; split; [done|]; split; [|done];
       rewrite calls_app; apply without_app; split; [done|];
       rewrite calls_cons_Do; by constructor.
  rewrite archiveAndPersist_trace. cbn zeta.
  set (ops := packageOps w derived).
  set (writes := match settle_all (promise <$> ops) with
                 | Done _ =>
                     [All ((fun op => [WriteJson (infoFile (descriptor op)) (descriptor op)])
                           <$> ops)]
                 | _ => []
                 end).
  exists (fst (workingSet w cmd) ++
          Do (NewProgressBar (length derived * 2 * 5)) :: fst (createBundles w cmd' derived) ++
          (Do <$> (ops ≫= started)) ++ [All (handled <$> ops)]),
         (writes ++ tail).
  destruct (written_ops w derived) as [Hs Hh]. fold ops in Hs, Hh.
  split; [|split].
  - by rewrite <- !app_assoc, <- !app_comm_cons, <- !app_assoc.
  - rewrite calls_app. apply without_app. split; [done|].
    rewrite calls_cons_Do. constructor; [done|].
    rewrite !calls_app. apply without_app. split; [done|].
    apply without_app. split.
    + rewrite calls_Do. by apply written_nil_without.
    + rewrite calls_cons_All, join_fmap_bind. apply without_app.
      split; [by apply written_nil_without | constructor].
  - rewrite calls_app. apply without_app. split; [|done].
    subst writes. destruct (settle_all _); [|constructor..].
    rewrite calls_cons_All, join_singletons. apply without_app.
    split; [|constructor]. apply Forall_fmap, Forall_true. done.
Qed.

(** X19: in whatever order the concurrent operations of a run take their
    turns, every descriptor file is written after every call that writes
    an archive and after every [create-package] notification. *)
Theorem run_writes_after_archives (w : World) (cmd : PackageCommand) (l : list action) (i j : nat) (a b : action) :
  linearization (fst (run w cmd)) l ->
  l !! i = Some a ->
  l !! j = Some b ->
  persisting a = true ->
  producing b = true ->
  j < i.
Proof.
  intros Hlin Hi Hj Ha Hb.
  destruct (run_phases_persisting w cmd) as (tA & tB & Heq & HA & HB).
  exact (order_from_split _ tA tB persisting producing Heq HA HB l i j a b Hlin Hi Hj Ha Hb).
Qed.

Lemma reported_observed lvl items :
  bundlerCalls (reported lvl items) = [] /\ progressBars (reported lvl items) = [].
Proof.
  assert (Hlog : Forall (fun a => match a with LogEach _ _ _ _ => true | _ => false end = true)
                        (reported lvl items)).
  { destruct items as [l|]; [|constructor]. cbn.
    apply Forall_forall. intros a Ha.
    apply elem_of_lookup_imap in Ha as (k & item & -> & _). done. }
  split; (eapply omap_none_Forall; [|exact Hlog]); by intros [].
Qed.

Lemma createBundles_observed w cmd (scripts : list ActionInfo) :
  bundlerCalls (calls (fst (createBundles w cmd scripts))) = [bundlerInput cmd scripts] /\
  progressBars (calls (fst (createBundles w cmd scripts))) = [].
Proof.
  rewrite createBundles_eq.
  destruct (bundler_run w _) as [stats|e|]; cbn [fst]; [|done..].
  rewrite calls_cons_Do, calls_Do.
  destruct (reported_observed Error (errors stats)) as [He1 He2].
  destruct (reported_observed Warn (warnings stats)) as [Hw1 Hw2].
  unfold bundlerCalls, progressBars in *. cbn [omap list_omap].
  by rewrite !omap_app, He1, He2, Hw1, Hw2.
Qed.

Lemma packaging_observed w cmd (scripts : list ActionInfo) :
  bundlerCalls (calls (fst (packaging w cmd scripts))) =
    match scripts with
    | [] => []
    | _ => [bundlerInput cmd (derive cmd <$> scripts)]
    end /\
  progressBars (calls (fst (packaging w cmd scripts))) =
    match scripts with
    | [] => []
    | _ => [length scripts * 2 * 5]
    end.
Proof.
  destruct scripts as [|s scripts]; [done|].
  unfold packaging. rewrite packageScripts_trace. cbn zeta.
  set (derived := derive cmd <$> s :: scripts).
  assert (Hlen : length derived = length (s :: scripts)) by apply length_fmap.
  rewrite calls_cons_Do, calls_app.
  destruct (createBundles_observed w cmd derived) as [Hcb1 Hcb2].
  assert (Hrest : forall {B} (f : action -> option B),
            (forall a, afterBundling a = true -> f a = None) ->
            omap f (calls match snd (createBundles w cmd derived) with
                          | Done _ => fst (archiveAndPersist w derived)
                          | _ => []
                          end) = []).
  { intros B f Hf. destruct (snd (createBundles w cmd derived)); [|done..].
    apply (omap_none_Forall _ afterBundling); [done|].
    apply archiveAndPersist_afterBundling. }
  unfold bundlerCalls, progressBars in *. cbn [omap list_omap].
  rewrite !omap_app, Hcb1, Hcb2.
  rewrite !Hrest by (by intros [| | | | | | [] | | | | | | | | | |]).
  by rewrite Hlen.
Qed.

(** X20: the progress bar is created and the bundler is called at most
    once in a run: once each, with ten ticks to the script and with the
    input built from all the scripts left, when scripts are left, and
    not at all otherwise. *)
Theorem run_bundles_once (w : World) (cmd cmd' : PackageCommand) (t : trace) (scripts : list ActionInfo) :
  workingSet w cmd = (t, Done (cmd', scripts)) ->
  bundlerCalls (calls (fst (run w cmd))) =
    match scripts with
    | [] => []
    | _ => [bundlerInput cmd' (derive cmd' <$> scripts)]
    end /\
  progressBars (calls (fst (run w cmd))) =
    match scripts with
    | [] => []
    | _ => [length scripts * 2 * 5]
    end.
Proof.
  intros Hws.
  pose proof (workingSet_preparing flattenDependencies w cmd) as Hprep.
  rewrite Hws in Hprep. cbn [fst] in Hprep.
  assert (Hb0 : bundlerCalls (calls t) = [])
    by (apply (omap_none_Forall _ preparing); [by intros []|done]).
  assert (Hp0 : progressBars (calls t) = [])
    by (apply (omap_none_Forall _ preparing); [by intros []|done]).
  destruct (packaging_observed w cmd' scripts) as [Hb1 Hp1].
  rewrite run_trace, Hws. cbn [fst snd].
  unfold bundlerCalls, progressBars in *.
  rewrite !calls_app, !omap_app, Hb0, Hp0, Hb1, Hp1. cbn [app].
  destruct (snd (packaging w cmd' scripts)) as [[]|e|]; cbn; by rewrite !app_nil_r.
Qed.

End Run.

End WithPlatform.

End RunMore.


(** ** The further properties on the example project *)

Module MoreScenarioFacts.

Import ExamplePlatform Descriptor Effects Package EffectFacts Scenarios Mishaps Observers.
Import CreatePackageMore RunMore.
Local Open Scope list_scope.

Abbreviation flatten := PackagerUtils.flattenDependencies.

(** Keys that are array indices come first: the scripts [b.js], [10.js]
    and [2.js] give an object that is enumerated as 2, 10, b. *)
Example bundlerInput_indices :
  b_files (bundlerInput full'
             (derive full' <$> [built "b.js" false []; built "10.js" false [];
                                built "2.js" false []])) =
  [("2", target +:+ "/2.js"); ("10", target +:+ "/10.js"); ("b", target +:+ "/b.js")].
Proof. reflexivity. Qed.

(** A later script of the same name replaces the entry file. *)
Example bundlerInput_overwrite :
  b_files (bundlerInput full'
             (derive full' <$> [built "x/a.js" false []; built "b.js" false [];
                                built "y/a.js" false []])) =
  [("a", target +:+ "/y/a.js"); ("b", target +:+ "/b.js")].
Proof. reflexivity. Qed.

Lemma createPackage_ticks_and_errors_witness :
  let i := derive full' descriptorB in
  let run := failing i in
  let op := createPackage i run in
  ticks (handled op) =
    (fun n => if String.eqb n "" then ""
              else "packaging " +:+ cutNodeModules (cutPackageJson n))
    <$> entryNames (signals run) /\
  errorsLogged (handled op) =
    (fun m => chalk_redBright "[error] " +:+ "Unable to create archive: " +:+ m)
    <$> omap failureOf (signals run).
Proof.
  intros i run.
  apply (createPackage_ticks_and_errors i run (target +:+ "/b.zip")).
  reflexivity.
Defined.

Lemma run_not_incremental_witness :
  let w := world [target +:+ "/a.zip"] quiet archived in
  let t0 := fst (loadDescriptors flatten w full) in
  workingSet flatten w full = (t0, Done (full', loaded)) /\
  emitted "ignore-package" (calls (fst (run flatten w full))) = [] /\
  (forall p, PathExists p ∉ calls (fst (run flatten w full))).
Proof.
  intros w t0.
  apply (run_not_incremental flatten w full full' t0 loaded).
  - reflexivity.
  - vm_compute. reflexivity.
Defined.

Lemma run_build_failure_witness :
  run flatten brokenBuild full =
  ([Do SuperInit; Do (BuildRun ["src/*.htl"] (path_resolve ["/proj"; ".hlx/build"]))],
   Thrown "build failed").
Proof.
  apply (run_build_failure flatten brokenBuild full "build failed").
  - reflexivity.
  - reflexivity.
Defined.

Lemma run_read_failure_witness :
  let pattern := path_resolve [directory full; _target full] +:+ "/**/*.info.json" in
  (exists f' e',
     f' ∈ glob_sync unreadable pattern /\
     read_json unreadable f' = Thrown e' /\
     snd (run flatten unreadable full) = Thrown e') /\
  calls (fst (run flatten unreadable full)) =
    [SuperInit; BuildRun ["src/*.htl"] target; GlobSync pattern;
     ReadJSON infoA; ReadJSON infoB] /\
  Forall (fun a => loading a = true) (calls (fst (run flatten unreadable full))).
Proof.
  intros pattern.
  destruct (run_read_failure flatten unreadable full infoB "Unexpected end of JSON input")
    as (Hrejected & Hcalls & Hloading).
  - reflexivity.
  - reflexivity.
  - apply elem_of_cons. right. apply elem_of_cons. by left.
  - reflexivity.
  - split; [exact Hrejected|]. split; [rewrite Hcalls; reflexivity | exact Hloading].
Defined.

Lemma run_bundler_throws_witness :
  let t := fst (workingSet flatten brokenBundler full) in
  run flatten brokenBundler full =
  (t ++ [Do (NewProgressBar (length (derive full' <$> loaded) * 2 * 5));
         Do (BundlerRun (bundlerInput full' (derive full' <$> loaded)))],
   Thrown "webpack failed").
Proof.
  intros t.
  apply (run_bundler_throws flatten brokenBundler full full' t loaded "webpack failed").
  - vm_compute. reflexivity.
  - discriminate.
  - reflexivity.
Defined.

Lemma run_created_packages_witness :
  let w := world [] quiet halfArchived in
  let l := calls (fst (run flatten w full)) in
  emitted "create-package" l ≡ₚ fulfilled (packageOps w (derive full' <$> loaded)) /\
  (forall d, d ∈ emitted "create-package" l -> exists n, archiveSize d = Some n).
Proof.
  intros w l.
  apply (run_created_packages flatten w full full'
           (fst (workingSet flatten w full)) loaded quiet l).
  - vm_compute. reflexivity.
  - discriminate.
  - reflexivity.
  - apply linearization_calls.
Defined.

Lemma run_archive_not_fulfilled_witness :
  let w := world [] quiet halfArchived in
  (forall c, snd (run flatten w full) <> Done c) /\
  written (calls (fst (run flatten w full))) = [] /\
  completed ∉ calls (fst (run flatten w full)).
Proof.
  intros w.
  pose (i := derive full' flattenOneB).
  apply (run_archive_not_fulfilled flatten w full full'
           (fst (workingSet flatten w full)) loaded quiet
           (createPackage i (archive_run w i))).
  - vm_compute. reflexivity.
  - discriminate.
  - reflexivity.
  - apply elem_of_cons. right. apply elem_of_cons. by left.
  - intros d Hd. vm_compute in Hd. discriminate Hd.
Defined.

Lemma run_written_descriptors_witness :
  let w := world [] quiet archived in
  let d := set_archiveSize 1024 (derive full' flattenOneB) in
  Some infoB = infoFile d /\
  (exists n, archiveSize d = Some n) /\
  d ∈ emitted "create-package" (calls (fst (run flatten w full))).
Proof.
  intros w d.
  apply (run_written_descriptors flatten w full full' full'
           (fst (workingSet flatten w full)) loaded (Some infoB) d).
  - vm_compute. reflexivity.
  - vm_compute. reflexivity.
  - vm_compute. apply elem_of_cons. right. apply elem_of_cons. by left.
Defined.

Lemma run_writes_after_archives_witness :
  let w := world [] quiet archived in
  let l := calls (fst (run flatten w full)) in
  let a := set_archiveSize 1024 (derive full' descriptorA) in
  let b := set_archiveSize 1024 (derive full' flattenOneB) in
  l !! 29%nat = Some (WriteJson (infoFile a) a) /\
  l !! 28%nat = Some (Emit "create-package" b) /\
  28 < 29.
Proof.
  intros w l a b. split; [reflexivity|]. split; [reflexivity|].
  apply (run_writes_after_archives flatten w full l 29 28
           (WriteJson (infoFile a) a) (Emit "create-package" b)).
  - apply linearization_calls.
  - reflexivity.
  - reflexivity.
  - reflexivity.
  - reflexivity.
Defined.

Lemma run_bundles_once_witness :
  let w := world [] quiet archived in
  bundlerCalls (calls (fst (run flatten w full)))
    = [bundlerInput full' (derive full' <$> loaded)] /\
  progressBars (calls (fst (run flatten w full))) = [20].
Proof.
  intros w.
  apply (run_bundles_once flatten w full full' (fst (workingSet flatten w full)) loaded).
  vm_compute. reflexivity.
Defined.

End MoreScenarioFacts.
